(** * Pythonator log buffer: ring buffer, partial-line reassembly,
      asynchronous file writer and file-backed history reader.

    A shallow embedding of [log_buffer.py].  Python text ([str]) is a
    sequence of Unicode code points and is modelled as [list N]; Python
    integers are [Z] (or [N]/[nat] where the code keeps them non-negative).
    The clock, the outcome of disk operations and the imports from the
    [config] module are explicit inputs of the operations that use them.
    The worker thread is a step function; starting and stopping it
    ([close], [shutdown_log_writer]) and the creation of directories are
    not part of the model. *)

From Stdlib Require Import ZArith NArith List Bool Lia String Ascii.
From stdpp Require Import base decidable option list gmap pretty.

Local Open Scope N_scope.

(** ** Text *)

Abbreviation str := (list N).
Abbreviation path := (list N).

(** Code points of a literal. *)
Definition py (s : string) : str :=
  map N_of_ascii (list_ascii_of_string s).

Definition LF : N := 10.
Definition CR : N := 13.
Definition ESC : N := 27.

(** The line boundaries of [str.splitlines]: LF, VT, FF, CR, FS, GS, RS,
    NEL, LINE SEPARATOR and PARAGRAPH SEPARATOR (and the pair CR LF). *)
Definition is_linebreak (c : N) : bool :=
  bool_decide (c ∈ [10; 11; 12; 13; 28; 29; 30; 133; 8232; 8233]).

(** Put a character in front of the first piece of a split. *)
Definition cons_part (c : N) (rest : list str) : list str :=
  match rest with
  | [] => [[c]]
  | p :: ps => (c :: p) :: ps
  end.

(** [s.splitlines(keepends)] *)
Fixpoint splitlines (keepends : bool) (s : str) : list str :=
  match s with
  | [] => []
  | c :: s' =>
      if is_linebreak c then
        match s' with
        | d :: s'' =>
            if (c =? CR) && (d =? LF)
            then (if keepends then [c; d] else []) :: splitlines keepends s''
            else (if keepends then [c] else []) :: splitlines keepends s'
        | [] => [if keepends then [c] else []]
        end
      else cons_part c (splitlines keepends s')
  end.

(** ["\n" in s] *)
Definition has_newline (s : str) : bool := bool_decide (LF ∈ s).

(** [s.endswith("\n")] *)
Definition endswith_nl (s : str) : bool :=
  match last s with
  | Some c => c =? LF
  | None => false
  end.

(** [s.rstrip("\n")] *)
Fixpoint rstrip_nl (s : str) : str :=
  match s with
  | [] => []
  | c :: s' =>
      match rstrip_nl s' with
      | [] => if c =? LF then [] else [c]
      | r => c :: r
      end
  end.

(** ["".join(l)] *)
Definition join (l : list str) : str := concat l.

(** [s.startswith(p)] *)
Fixpoint startswith (p s : str) : bool :=
  match p, s with
  | [], _ => true
  | _ :: _, [] => false
  | a :: p', b :: s' => (a =? b) && startswith p' s'
  end.

(** [p in s] for strings: [p] occurs in [s] as a contiguous run. *)
Fixpoint contains (p s : str) : bool :=
  startswith p s ||
  match s with
  | [] => false
  | _ :: s' => contains p s'
  end.

(** [s.find(c)] for a one-character needle: first index, or -1. *)
Fixpoint find_char (c : N) (s : str) : Z :=
  match s with
  | [] => (-1)%Z
  | d :: s' =>
      if d =? c then 0%Z
      else let r := find_char c s' in
           if (r <? 0)%Z then (-1)%Z else (r + 1)%Z
  end.

(** [l[i:j]] for indices that are not negative. *)
Definition slice {A} (i j : Z) (l : list A) : list A :=
  drop (Z.to_nat i) (take (Z.to_nat j) l).

(** Lower-casing of the ASCII letters, other code points unchanged. *)
Definition ascii_lower_char (c : N) : N :=
  if (65 <=? c) && (c <=? 90) then c + 32 else c.

Definition ascii_lower (s : str) : str := map ascii_lower_char s.

(** The text holds ASCII characters only. *)
Definition is_ascii (s : str) : Prop := Forall (fun c => c < 128) s.

(** Two characters that are the same up to the case of an ASCII letter. *)
Definition same_letter (a b : N) : Prop :=
  a = b ∨ (65 <= a ∧ a <= 90 ∧ b = a + 32) ∨ (65 <= b ∧ b <= 90 ∧ a = b + 32).

(** [pattern] occurs in [line] as a contiguous run, up to the case of the
    letters: the notion of a case-insensitive substring, stated without
    lower-casing. *)
Definition occurs_ignoring_case (pattern line : str) : Prop :=
  ∃ pre s suf, line = pre ++ s ++ suf ∧ Forall2 same_letter s pattern.

(** [str.lower] on texts of ASCII characters and Greek letters, for the
    examples with Greek text.  A Greek capital becomes its small letter;
    capital sigma (931) becomes the final small sigma (962) when a cased
    letter stands before it and none after it, as Unicode and CPython have
    it, and the small sigma (963) otherwise.  Characters that are ignored
    when that context is looked up (apostrophes, combining marks and the
    like) and letters of other scripts are outside this instance. *)
Definition is_cased (c : N) : bool :=
  ((65 <=? c) && (c <=? 90)) || ((97 <=? c) && (c <=? 122)) ||
  ((913 <=? c) && (c <=? 937) && negb (c =? 930)) || ((945 <=? c) && (c <=? 969)).

Definition greek_lower_char (c : N) : N :=
  if (913 <=? c) && (c <=? 937) && negb (c =? 930) then c + 32
  else ascii_lower_char c.

Fixpoint greek_lower_from (after_cased : bool) (s : str) : str :=
  match s with
  | [] => []
  | c :: s' =>
      (if c =? 931 then
         if after_cased && negb (match s' with d :: _ => is_cased d | [] => false end)
         then 962 else 963
       else greek_lower_char c)
      :: greek_lower_from (is_cased c) s'
  end.

Definition greek_lower (s : str) : str := greek_lower_from false s.

(** Modelled from the spec: [normalize] of the [config] module, which is not
    among the sources.  "All line endings converted to LF": every CR LF
    pair and every bare CR becomes one LF. *)
Fixpoint normalize_crlf (s : str) : str :=
  match s with
  | [] => []
  | c :: s' =>
      if c =? CR then
        LF :: match s' with
              | d :: s'' => if d =? LF then normalize_crlf s'' else normalize_crlf s'
              | [] => []
              end
      else c :: normalize_crlf s'
  end.

(** Modelled from the spec: [strip_ansi] of the [config] module, which is
    not among the sources.  "Strips ANSI escape sequences": a sequence is
    ESC, an opening bracket, parameter characters (digits and semicolons)
    and one final letter; anything else is passed through. *)
Fixpoint skip_params (s : str) : str :=
  match s with
  | [] => []
  | c :: s' =>
      if ((48 <=? c) && (c <=? 57)) || (c =? 59) then skip_params s' else s
  end.

Definition is_letter (c : N) : bool :=
  ((65 <=? c) && (c <=? 90)) || ((97 <=? c) && (c <=? 122)).

Fixpoint strip_csi_fuel (fuel : nat) (s : str) : str :=
  match fuel with
  | O => s
  | S fuel' =>
      match s with
      | [] => []
      | c :: s' =>
          match s' with
          | d :: s'' =>
              if (c =? ESC) && (d =? 91) then
                match skip_params s'' with
                | f :: rest =>
                    if is_letter f then strip_csi_fuel fuel' rest
                    else c :: strip_csi_fuel fuel' s'
                | [] => c :: strip_csi_fuel fuel' s'
                end
              else c :: strip_csi_fuel fuel' s'
          | [] => [c]
          end
      end
  end.

Definition strip_csi (s : str) : str := strip_csi_fuel (length s) s.


(** ** The [config] module

    [log_buffer.py] imports five names from [config], which is not among
    the sources; they are parameters of the model. *)
Record Config := {
  LOGS_DIR : path;
  MAX_LOG_LINES : nat;
  HISTORY_CHUNK : Z;
  normalize : str -> str;
  strip_ansi : str -> str
}.

(** The disk: the content of every file that exists. *)
Abbreviation Disk := (gmap (list N) (list N)).

(** Opening [p] in append mode and writing [t]. *)
Definition disk_append (p : path) (t : str) (d : Disk) : Disk :=
  <[p := default [] (d !! p) ++ t]> d.

(** ** _AsyncFileWriter

    [_q] is the bounded queue with its [maxsize]; the worker thread is the
    step function [_run_step], one loop iteration per step, interleaved
    with the callers at the granularity of whole operations. *)
Record AsyncFileWriter := {
  _q : list (path * str);
  _q_maxsize : Z;
  _dropped : N
}.

Definition AsyncFileWriter_init (max_queue : Z) : AsyncFileWriter :=
  {| _q := []; _q_maxsize := max_queue; _dropped := 0 |}.

(** [queue.Queue.full()]: a [maxsize] of zero or less is an unbounded queue. *)
Definition q_full (w : AsyncFileWriter) : bool :=
  (0 <? _q_maxsize w)%Z && (_q_maxsize w <=? Z.of_nat (length (_q w)))%Z.

(** [_AsyncFileWriter.write] *)
Definition write (p : path) (text : str) (w : AsyncFileWriter) : AsyncFileWriter :=
  match text with
  | [] => w
  | _ :: _ =>
      if q_full w
      then {| _q := _q w; _q_maxsize := _q_maxsize w; _dropped := _dropped w + 1 |}
      else {| _q := _q w ++ [(p, text)]; _q_maxsize := _q_maxsize w; _dropped := _dropped w |}
  end.

(** The annotation line of the worker. *)
Definition drop_note (dropped : N) : str :=
  py "[log-writer] dropped " ++ py (pretty dropped) ++
  py " chunks due to backpressure" ++ [LF].

(** One iteration of the loop of [_AsyncFileWriter._run].  [write_ok] tells
    whether creating the directory, opening the file and writing the text
    succeed, [note_ok] whether the second open and write do. *)
Definition _run_step (write_ok note_ok : bool) (w : AsyncFileWriter) (d : Disk)
  : AsyncFileWriter * Disk :=
  match _q w with
  | [] => (w, d)
  | (p, text) :: q' =>
      if write_ok then
        let d1 := disk_append p text d in
        if 0 <? _dropped w then
          ({| _q := q'; _q_maxsize := _q_maxsize w; _dropped := 0 |},
           if note_ok then disk_append p (drop_note (_dropped w)) d1 else d1)
        else ({| _q := q'; _q_maxsize := _q_maxsize w; _dropped := _dropped w |}, d1)
      else ({| _q := q'; _q_maxsize := _q_maxsize w; _dropped := _dropped w |}, d)
  end.

(** [_writer()]: the process-wide writer, created on first use. *)
Definition _writer (g : option AsyncFileWriter) : AsyncFileWriter :=
  match g with
  | Some w => w
  | None => AsyncFileWriter_init 10000
  end.

(** ** LogBuffer *)
Record LogBuffer := {
  name : str;
  lines : list str;
  file : path;
  _cache : option (list str);
  _mtime : Z;
  _partial : str
}.

(** [collections.deque.append] with [maxlen]. *)
Definition deque_append {A} (maxlen : nat) (d : list A) (x : A) : list A :=
  let d' := d ++ [x] in
  if decide (maxlen < length d')%nat then drop 1 d' else d'.

(** The display rendering of a line: the timestamp in colour. *)
Definition disp_line (ts content : str) : str :=
  py "[" ++ [ESC] ++ py "[94m" ++ ts ++ [ESC] ++ py "[0m] " ++ content ++ [LF].

(** What stands before the content in a display line. *)
Definition disp_prefix (ts : str) : str :=
  py "[" ++ [ESC] ++ py "[94m" ++ ts ++ [ESC] ++ py "[0m] ".

(** What a read of the backing file finds once [self.file.exists()] has
    returned: the answer of that test, the modification time [stat] reports
    (or its failure) and the text [read_text] returns (or its failure). *)
Record FileView := {
  fv_exists : bool;
  fv_stat : option Z;
  fv_read : option str
}.

(** The outcome of [self.file.exists()], the first statement of
    [_read_file].  It stands before the [try]: [Path.exists] either returns,
    and the read goes on with what [fv] describes, or raises an [OSError]
    (any other than a missing path), which nothing catches. *)
Inductive Probe :=
| Probed (fv : FileView)
| ProbeError.

(** [LogBuffer._colorize] *)
Definition _colorize (line : str) : str :=
  if startswith (py "[") line then
    let b := find_char 93 line in
    if (0 <? b)%Z
    then py "[" ++ [ESC] ++ py "[94m" ++ slice 1 b line ++ [ESC] ++ py "[0m]" ++
         drop (Z.to_nat (b + 1)) line
    else line
  else line.

(** The text of a list of historical lines, each re-colorized. *)
Definition render_lines (ls : list str) : str :=
  join (map (fun l => _colorize l ++ [LF]) ls).

Section Model.
Variable cfg : Config.
(** [str.lower] *)
Variable lower : str -> str.

(** [LogBuffer.__init__] *)
Definition LogBuffer_init (nm : str) : LogBuffer :=
  {| name := nm; lines := [];
     file := LOGS_DIR cfg ++ py "/" ++ nm ++ py ".log";
     _cache := None; _mtime := 0; _partial := [] |}.

(** The file rendering of a line. *)
Definition file_line (ts content : str) : str :=
  py "[" ++ ts ++ py "] " ++ strip_ansi cfg content ++ [LF].

(** The split of [append]: the complete segments and the new partial. *)
Definition complete_parts (data : str) : list str * str :=
  let parts := splitlines true data in
  match last parts with
  | Some p => if endswith_nl p then (parts, []) else (removelast parts, p)
  | None => (parts, [])
  end.

(** The loop of [append] over the complete segments, on the ring and the
    two output lists. *)
Definition append_loop (ts : str) (parts : list str) (ring : list str)
  : list str * list str * list str :=
  fold_left
    (fun '(ring, display, file_out) part =>
       let content := rstrip_nl part in
       let disp := disp_line ts content in
       (deque_append (MAX_LOG_LINES cfg) ring disp,
        display ++ [disp],
        file_out ++ [file_line ts content]))
    parts (ring, [], []).

(** [LogBuffer.append]; [ts] is the formatted reading of the clock. *)
Definition append (ts text : str) (b : LogBuffer) (g : option AsyncFileWriter)
  : (str * str) * LogBuffer * option AsyncFileWriter :=
  match text with
  | [] => (([], []), b, g)
  | _ :: _ =>
      let data := _partial b ++ normalize cfg text in
      if negb (has_newline data) then
        (([], []),
         {| name := name b; lines := lines b; file := file b;
            _cache := _cache b; _mtime := _mtime b; _partial := data |}, g)
      else
        let '(parts, partial') := complete_parts data in
        let '(ring, display, file_out) := append_loop ts parts (lines b) in
        ((join display, join file_out),
         {| name := name b; lines := ring; file := file b;
            _cache := None; _mtime := _mtime b; _partial := partial' |},
         Some (write (file b) (join file_out) (_writer g)))
  end.

(** [LogBuffer.get_recent] *)
Definition get_recent (b : LogBuffer) : str := join (lines b).

(** The fallback of [_read_file]: the ring, trailing newlines stripped. *)
Definition ring_history (b : LogBuffer) : list str := map rstrip_nl (lines b).

(** [LogBuffer._read_file] from the point where [self.file.exists()] has
    returned; the call with that test in it is [_read_file_call]. *)
Definition _read_file (fv : FileView) (b : LogBuffer) : list str * LogBuffer :=
  if negb (fv_exists fv) then (ring_history b, b)
  else
    match fv_stat fv with
    | None => (ring_history b, b)
    | Some mtime =>
        let reread :=
          match fv_read fv with
          | None => (ring_history b, b)
          | Some text =>
              let c := splitlines false (normalize cfg text) in
              (c, {| name := name b; lines := lines b; file := file b;
                     _cache := Some c; _mtime := mtime; _partial := _partial b |})
          end in
        match _cache b with
        | Some (l :: ls) => if (mtime =? _mtime b)%Z then (l :: ls, b) else reread
        | _ => reread
        end
    end.

(** [LogBuffer.line_count] *)
Definition line_count (fv : FileView) (b : LogBuffer) : nat * LogBuffer :=
  let '(ls, b') := _read_file fv b in (length ls, b').

(** A call of [LogBuffer._read_file] as a whole: [None] is the [OSError] of
    the existence test leaving the method, the buffer as it was. *)
Definition _read_file_call (p : Probe) (b : LogBuffer) : option (list str * LogBuffer) :=
  match p with
  | ProbeError => None
  | Probed fv => Some (_read_file fv b)
  end.

(** A call of [LogBuffer.line_count] as a whole: an error of [_read_file]
    passes through [len(self._read_file())]. *)
Definition line_count_call (p : Probe) (b : LogBuffer) : option (nat * LogBuffer) :=
  match _read_file_call p b with
  | None => None
  | Some (ls, b') => Some (length ls, b')
  end.

(** [LogBuffer.search] *)
Definition search (pattern : str) (fv : FileView) (b : LogBuffer)
  : (str * nat) * LogBuffer :=
  let p := lower pattern in
  let '(ls, b') := _read_file fv b in
  let matches := List.filter (fun l => contains p (lower l)) ls in
  match matches with
  | [] => (([], O), b')
  | _ :: _ => ((render_lines matches, length matches), b')
  end.

(** [LogBuffer.load_chunk] *)
Definition load_chunk (end_ size : Z) (fv : FileView) (b : LogBuffer)
  : (str * Z) * LogBuffer :=
  let '(ls, b') := _read_file fv b in
  match ls with
  | [] => (([], 0%Z), b')
  | _ :: _ =>
      if (end_ <=? 0)%Z then (([], 0%Z), b')
      else
        let start := Z.max 0 (end_ - size) in
        let chunk := slice start end_ ls in
        match chunk with
        | [] => (([], 0%Z), b')
        | _ :: _ => ((render_lines chunk, start), b')
        end
  end.

(** [load_chunk] with the default [size]. *)
Definition load_chunk_default (end_ : Z) (fv : FileView) (b : LogBuffer)
  : (str * Z) * LogBuffer :=
  load_chunk end_ (HISTORY_CHUNK cfg) fv b.

(** [LogBuffer.clear]; [truncate_ok] tells whether writing the empty text
    to the backing file succeeds. *)
Definition clear (truncate_ok : bool) (b : LogBuffer) (d : Disk) : LogBuffer * Disk :=
  ({| name := name b; lines := []; file := file b;
      _cache := None; _mtime := _mtime b; _partial := _partial b |},
   if truncate_ok then <[file b := []]> d else d).
End Model.

(** ** The system: one buffer, the process-wide writer and the disk *)
Record World := {
  buf : LogBuffer;
  writer : option AsyncFileWriter;
  disk : Disk
}.

(** What a read of [p] finds on disk [d]; the modification time and whether
    the file can be read are given from outside. *)
Definition view_of (d : Disk) (p : path) (stat : option Z) (readable : bool) : FileView :=
  {| fv_exists := bool_decide (is_Some (d !! p));
     fv_stat := stat;
     fv_read := if readable then d !! p else None |}.

Inductive op :=
| OpAppend (ts text : str)
| OpGetRecent
| OpLineCount (stat : option Z) (readable : bool)
| OpSearch (pattern : str) (stat : option Z) (readable : bool)
| OpLoadChunk (end_ size : Z) (stat : option Z) (readable : bool)
| OpClear (truncate_ok : bool)
| OpWorker (write_ok note_ok : bool).

Section System.
Variable cfg : Config.
Variable lower : str -> str.

Definition World_init (nm : str) : World :=
  {| buf := LogBuffer_init cfg nm; writer := None; disk := ∅ |}.

Definition exec (o : op) (w : World) : World :=
  match o with
  | OpAppend ts text =>
      let '(_, b, g) := append cfg ts text (buf w) (writer w) in
      {| buf := b; writer := g; disk := disk w |}
  | OpGetRecent => w
  | OpLineCount stat readable =>
      let '(_, b) := line_count cfg (view_of (disk w) (file (buf w)) stat readable) (buf w) in
      {| buf := b; writer := writer w; disk := disk w |}
  | OpSearch pattern stat readable =>
      let '(_, b) := search cfg lower pattern
                       (view_of (disk w) (file (buf w)) stat readable) (buf w) in
      {| buf := b; writer := writer w; disk := disk w |}
  | OpLoadChunk end_ size stat readable =>
      let '(_, b) := load_chunk cfg end_ size
                       (view_of (disk w) (file (buf w)) stat readable) (buf w) in
      {| buf := b; writer := writer w; disk := disk w |}
  | OpClear truncate_ok =>
      let '(b, d) := clear truncate_ok (buf w) (disk w) in
      {| buf := b; writer := writer w; disk := d |}
  | OpWorker write_ok note_ok =>
      match writer w with
      | None => w
      | Some a =>
          let '(a', d) := _run_step write_ok note_ok a (disk w) in
          {| buf := buf w; writer := Some a'; disk := d |}
      end
  end.

(** Operations in the order they happen. *)
Definition run (ops : list op) (w : World) : World :=
  fold_left (fun w o => exec o w) ops w.

(** The line contents one call of [append] completes. *)
Definition call_contents (text : str) (b : LogBuffer) : list str :=
  match text with
  | [] => []
  | _ :: _ =>
      let data := _partial b ++ normalize cfg text in
      if has_newline data then map rstrip_nl (complete_parts data).1 else []
  end.

(** A sequence of [append] calls, each a clock reading and a chunk: the
    pairs returned, and the final buffer and writer. *)
Fixpoint feed (calls : list (str * str)) (b : LogBuffer) (g : option AsyncFileWriter)
  : list (str * str) * LogBuffer * option AsyncFileWriter :=
  match calls with
  | [] => ([], b, g)
  | (ts, text) :: rest =>
      let '(out, b1, g1) := append cfg ts text b g in
      let '(outs, b2, g2) := feed rest b1 g1 in
      (out :: outs, b2, g2)
  end.

(** The line contents completed by each call of a sequence. *)
Fixpoint feed_contents (calls : list (str * str)) (b : LogBuffer) : list (list str) :=
  match calls with
  | [] => []
  | (ts, text) :: rest =>
      call_contents text b :: feed_contents rest (append cfg ts text b None).1.2
  end.

(** The display lines of a sequence of calls, in the order they are
    appended to the ring. *)
Fixpoint feed_display (calls : list (str * str)) (b : LogBuffer) : list str :=
  match calls with
  | [] => []
  | (ts, text) :: rest =>
      map (disp_line ts) (call_contents text b) ++
      feed_display rest (append cfg ts text b None).1.2
  end.

(** The pair [append] returns for the contents it completes. *)
Definition rendering (ts : str) (contents : list str) : str * str :=
  (join (map (disp_line ts) contents), join (map (file_line cfg ts) contents)).

(** What every operation keeps: the ring within its bound and the partial
    fragment free of newlines. *)
Definition buffer_ok (b : LogBuffer) : Prop :=
  (length (lines b) <= MAX_LOG_LINES cfg)%nat ∧ LF ∉ _partial b.

(** [pattern] occurs in [line] once both are lower-cased. *)
Definition ci_contains (pattern line : str) : Prop :=
  ∃ pre suf, lower line = pre ++ lower pattern ++ suf.
End System.

(** Newline-terminated lines, joined. *)
Definition join_nl (ls : list str) : str := concat (map (fun l => l ++ [LF]) ls).

(** No line boundary of [splitlines] occurs in the text. *)
Definition no_linebreak (s : str) : Prop := Forall (fun c => is_linebreak c = false) s.

(** A text made of newlines and of characters that are no line boundary. *)
Definition clean (s : str) : Prop := Forall (fun c => c = LF ∨ is_linebreak c = false) s.

(** An instance of the parameters for the examples below: the normalizer
    and the escape stripper modelled from the spec and a ring of [cap] lines. *)
Definition demo_config (cap : nat) : Config :=
  {| LOGS_DIR := py "logs"; MAX_LOG_LINES := cap; HISTORY_CHUNK := 500;
     normalize := normalize_crlf; strip_ansi := strip_csi |}.

(** A backing file that exists and can be read, with its modification time. *)
Definition file_with (mtime : Z) (text : str) : FileView :=
  {| fv_exists := true; fv_stat := Some mtime; fv_read := Some text |}.

Definition ten_lines : str :=
  join_nl [py "l0"; py "l1"; py "l2"; py "l3"; py "l4";
           py "l5"; py "l6"; py "l7"; py "l8"; py "l9"].

(** ** The worker loop and bursts of writes *)

(** Iterations of the loop of [_AsyncFileWriter._run], one per outcome pair
    [(write_ok, note_ok)]. *)
Fixpoint worker_steps (oks : list (bool * bool)) (w : AsyncFileWriter) (d : Disk)
  : AsyncFileWriter * Disk :=
  match oks with
  | [] => (w, d)
  | (write_ok, note_ok) :: rest =>
      let '(w1, d1) := _run_step write_ok note_ok w d in
      worker_steps rest w1 d1
  end.

(** Calls of [write] one after the other, with no worker step between. *)
Definition writes (jobs : list (path * str)) (w : AsyncFileWriter) : AsyncFileWriter :=
  fold_left (fun w j => write j.1 j.2 w) jobs w.

(** The disk once every job of a queue has been appended to its file. *)
Definition written (q : list (path * str)) (d : Disk) : Disk :=
  fold_left (fun d j => disk_append j.1 j.2 d) q d.


(** The texts a queue holds for one file, in queue order. *)
Definition texts_for (p : path) (q : list (path * str)) : list str :=
  map snd (filter (fun j => j.1 = p) q).

(** The persisted form of a line, without its newline. *)
Definition plain_line (ts content : str) : str :=
  py "[" ++ ts ++ py "] " ++ content.

(** The writer, once created, has the default capacity and respects it. *)
Definition writer_ok (g : option AsyncFileWriter) : Prop :=
  match g with
  | None => True
  | Some a => _q_maxsize a = 10000%Z ∧ (Z.of_nat (length (_q a)) <= 10000)%Z
  end.

(** * Properties *)

(** ** Text *)

Example splitlines_keep_ex :
  splitlines true (py "ab" ++ [LF] ++ py "c" ++ [12] ++ py "d" ++ [CR; LF] ++ py "e")
  = [py "ab" ++ [LF]; py "c" ++ [12]; py "d" ++ [CR; LF]; py "e"].
Proof. reflexivity. Qed.

Example splitlines_drop_ex :
  splitlines false (py "ab" ++ [LF; LF] ++ py "c" ++ [LF])
  = [py "ab"; []; py "c"].
Proof. reflexivity. Qed.

Example rstrip_ex : rstrip_nl (py "a" ++ [LF] ++ py "b" ++ [LF; LF]) = py "a" ++ [LF] ++ py "b".
Proof. reflexivity. Qed.

Example normalize_ex :
  normalize_crlf (py "a" ++ [CR; LF] ++ py "b" ++ [CR] ++ py "c" ++ [LF]) =
  py "a" ++ [LF] ++ py "b" ++ [LF] ++ py "c" ++ [LF].
Proof. reflexivity. Qed.

Example strip_ex :
  strip_csi ([ESC] ++ py "[94mhi" ++ [ESC] ++ py "[0m!") = py "hi!".
Proof. reflexivity. Qed.

Lemma is_linebreak_LF : is_linebreak LF = true.
Proof. reflexivity. Qed.

Lemma not_linebreak_ne c : is_linebreak c = false -> c ≠ LF ∧ c ≠ CR.
Proof. intros H; split; intros ->; discriminate. Qed.

Lemma has_newline_true s : has_newline s = true ↔ LF ∈ s.
Proof. unfold has_newline. apply bool_decide_eq_true. Qed.

Lemma has_newline_false s : has_newline s = false ↔ LF ∉ s.
Proof. unfold has_newline. apply bool_decide_eq_false. Qed.

Lemma endswith_nl_cons c p : p ≠ [] -> endswith_nl (c :: p) = endswith_nl p.
Proof. destruct p; [congruence|]. intros _. reflexivity. Qed.

Lemma endswith_nl_snoc l : endswith_nl (l ++ [LF]) = true.
Proof. unfold endswith_nl. rewrite last_snoc. reflexivity. Qed.

Lemma endswith_nl_elem p : endswith_nl p = true -> LF ∈ p.
Proof.
  unfold endswith_nl. destruct (last p) as [c|] eqn:E; [|discriminate].
  intros H. apply N.eqb_eq in H. subst c.
  apply last_Some in E as [l' ->]. set_solver.
Qed.

Lemma splitlines_LF k s : splitlines k (LF :: s) = (if k then [LF] else []) :: splitlines k s.
Proof. destruct s; reflexivity. Qed.

Lemma splitlines_plain k c s :
  is_linebreak c = false -> splitlines k (c :: s) = cons_part c (splitlines k s).
Proof. intros H. simpl. rewrite H. reflexivity. Qed.

(** In a piece of [splitlines] a newline can only be the last character. *)
Lemma splitlines_newline_last_aux n : forall s,
  (length s <= n)%nat ->
  Forall (fun p => LF ∈ p -> endswith_nl p = true) (splitlines true s).
Proof.
  induction n as [|n IH]; intros [|c s] Hlen; simpl in *; try constructor; try lia.
  destruct (is_linebreak c) eqn:Hc.
  - destruct s as [|d s'].
    + repeat constructor. intros Hin. apply list_elem_of_singleton in Hin. subst c. reflexivity.
    + destruct ((c =? CR) && (d =? LF)) eqn:Hcr.
      * constructor; [intros _; apply andb_true_iff in Hcr as [_ Hd];
                      apply N.eqb_eq in Hd; subst d; reflexivity|].
        apply IH. simpl in Hlen. lia.
      * constructor; [|apply IH; lia].
        intros Hin. apply list_elem_of_singleton in Hin. subst c. reflexivity.
  - assert (IHs := IH s ltac:(lia)).
    destruct (splitlines true s) as [|p ps] eqn:Hs; simpl.
    + repeat constructor. intros Hin. apply list_elem_of_singleton in Hin. subst c. discriminate.
    + inversion IHs as [|? ? Hp Hps]; subst. constructor; [|assumption].
      intros Hin. apply elem_of_cons in Hin as [E|Hin]; [subst c; discriminate|].
      specialize (Hp Hin). destruct p; [discriminate|].
      rewrite endswith_nl_cons by discriminate. assumption.
Qed.

Lemma splitlines_newline_last s :
  Forall (fun p => LF ∈ p -> endswith_nl p = true) (splitlines true s).
Proof. apply (splitlines_newline_last_aux (length s)). lia. Qed.

Lemma rstrip_nl_line l : LF ∉ l -> rstrip_nl (l ++ [LF]) = l.
Proof.
  induction l as [|c l IH]; intros H; [reflexivity|].
  apply not_elem_of_cons in H as [Hc Hl]. simpl. rewrite (IH Hl).
  destruct l; [|reflexivity].
  destruct (N.eqb_spec c LF); congruence.
Qed.

Lemma normalize_crlf_id s : CR ∉ s -> normalize_crlf s = s.
Proof.
  induction s as [|c s IH]; intros H; [reflexivity|].
  apply not_elem_of_cons in H as [Hc Hs]. simpl.
  destruct (N.eqb_spec c CR); [congruence|]. rewrite (IH Hs). reflexivity.
Qed.


Lemma clean_app s t : clean (s ++ t) ↔ clean s ∧ clean t.
Proof. apply Forall_app. Qed.

Lemma clean_join_nl ls : Forall no_linebreak ls -> clean (join_nl ls).
Proof.
  induction 1 as [|l ls Hl _ IH]; [constructor|].
  unfold join_nl; simpl. rewrite <- app_assoc. apply clean_app; split.
  - eapply Forall_impl; [exact Hl|]. auto.
  - apply clean_app; split; [repeat constructor; auto | exact IH].
Qed.

Lemma clean_no_CR s : clean s -> CR ∉ s.
Proof.
  intros H Hin. unfold clean in H. rewrite Forall_forall in H.
  destruct (H _ Hin) as [E|E]; discriminate.
Qed.

Lemma no_linebreak_no_LF l : no_linebreak l -> LF ∉ l.
Proof.
  intros H Hin. unfold no_linebreak in H. rewrite Forall_forall in H.
  specialize (H _ Hin). discriminate.
Qed.

(** The pieces of a clean text: its newline-terminated lines and a rest. *)
Lemma splitlines_clean s :
  clean s ->
  ∃ ls r, splitlines true s = map (fun l => l ++ [LF]) ls ++ match r with [] => [] | _ => [r] end
          ∧ s = join_nl ls ++ r ∧ Forall (fun l => LF ∉ l) ls ∧ LF ∉ r.
Proof.
  induction 1 as [|c s Hc _ (ls & r & Hp & Hs & Hls & Hr)].
  - exists [], []. repeat split; [constructor | apply not_elem_of_nil].
  - destruct Hc as [-> | Hc].
    + exists ([] :: ls), r. rewrite splitlines_LF, Hp. repeat split; trivial.
      * rewrite Hs at 1. reflexivity.
      * constructor; [apply not_elem_of_nil | assumption].
    + rewrite (splitlines_plain _ _ _ Hc), Hp.
      destruct (not_linebreak_ne _ Hc) as [Hne _].
      destruct ls as [|l ls].
      * exists [], (c :: r). simpl in *. subst s. repeat split; trivial.
        -- destruct r; reflexivity.
        -- apply not_elem_of_cons; auto.
      * exists ((c :: l) :: ls), r. simpl in *. subst s. repeat split; trivial.
        inversion Hls; subst. constructor; [apply not_elem_of_cons; auto | assumption].
Qed.

(** A text has one decomposition into newline-terminated lines and a rest
    without newline. *)
Lemma join_nl_unique l1 : forall l2 r1 r2,
  Forall (fun l => LF ∉ l) l1 -> Forall (fun l => LF ∉ l) l2 -> LF ∉ r1 -> LF ∉ r2 ->
  join_nl l1 ++ r1 = join_nl l2 ++ r2 -> l1 = l2 ∧ r1 = r2.
Proof.
  assert (Hhead : forall (a b x y : str), LF ∉ a -> LF ∉ b ->
             a ++ LF :: x = b ++ LF :: y -> a = b ∧ x = y).
  { induction a as [|c a IH]; intros [|d b] x y Ha Hb E; simpl in E.
    - injection E; auto.
    - injection E as <- _. exfalso. apply Hb. left.
    - injection E as -> _. exfalso. apply Ha. left.
    - injection E as -> E. apply not_elem_of_cons in Ha as [_ Ha].
      apply not_elem_of_cons in Hb as [_ Hb].
      destruct (IH _ _ _ Ha Hb E) as [-> ->]. auto. }
  induction l1 as [|a l1 IH]; intros [|b l2] r1 r2 H1 H2 Hr1 Hr2 E.
  - auto.
  - exfalso. apply Hr1. simpl in E. rewrite E. unfold join_nl. simpl.
    rewrite <- !app_assoc. rewrite !elem_of_app, !elem_of_cons. intuition.
  - exfalso. apply Hr2. simpl in E. rewrite <- E. unfold join_nl. simpl.
    rewrite <- !app_assoc. rewrite !elem_of_app, !elem_of_cons. intuition.
  - inversion H1; subst. inversion H2; subst.
    unfold join_nl in E. simpl in E. rewrite <- !app_assoc in E. simpl in E.
    apply Hhead in E as [-> E]; trivial.
    destruct (IH l2 r1 r2) as [-> ->]; auto.
Qed.

Lemma join_nl_app l1 l2 : join_nl (l1 ++ l2) = join_nl l1 ++ join_nl l2.
Proof. unfold join_nl. rewrite map_app, concat_app. reflexivity. Qed.

Lemma startswith_spec p : forall s, startswith p s = true ↔ ∃ suf, s = p ++ suf.
Proof.
  induction p as [|a p IH]; intros s; simpl.
  - split; eauto.
  - destruct s as [|b s]; simpl.
    + split; [discriminate | intros [? ?]; discriminate].
    + rewrite andb_true_iff, N.eqb_eq, IH. split.
      * intros [-> [suf ->]]. eauto.
      * intros [suf E]. injection E as -> ->. eauto.
Qed.

(** [contains] decides occurrence as a contiguous run. *)
Lemma contains_spec p : forall s, contains p s = true ↔ ∃ pre suf, s = pre ++ p ++ suf.
Proof.
  induction s as [|b s IH]; simpl; rewrite orb_true_iff, startswith_spec.
  - split.
    + intros [[suf E] | ?]; [|discriminate]. exists [], suf. assumption.
    + intros (pre & suf & E). left. destruct pre; [|discriminate]. eauto.
  - rewrite IH. split.
    + intros [[suf E] | (pre & suf & ->)]; [exists [], suf; assumption|].
      exists (b :: pre), suf. reflexivity.
    + intros (pre & suf & E). destruct pre as [|c pre]; [left; eauto|].
      injection E as -> ->. right. eauto.
Qed.

(** ** The ring *)

Lemma deque_append_length {A} m (d : list A) x :
  (length d <= m)%nat -> (length (deque_append m d x) <= m)%nat.
Proof.
  intros H. unfold deque_append. case_decide.
  - rewrite length_drop, length_app. simpl. lia.
  - rewrite length_app in *. simpl in *. lia.
Qed.

Lemma deque_append_drop {A} m (d : list A) x :
  (length d <= m)%nat -> deque_append m d x = drop (length d + 1 - m) (d ++ [x]).
Proof.
  intros H. unfold deque_append. rewrite length_app. simpl. case_decide.
  - replace (length d + 1 - m)%nat with 1%nat by lia. reflexivity.
  - replace (length d + 1 - m)%nat with 0%nat by lia. reflexivity.
Qed.

(** Appending [L] to a ring within its bound keeps the last [m] entries. *)
Lemma ring_fold {A} m (L : list A) : forall r,
  (length r <= m)%nat ->
  fold_left (deque_append m) L r = drop (length r + length L - m) (r ++ L).
Proof.
  induction L as [|x L IH]; intros r Hr; simpl.
  - rewrite app_nil_r. replace (length r + 0 - m)%nat with 0%nat by lia. reflexivity.
  - rewrite IH by (apply deque_append_length; assumption).
    rewrite deque_append_drop by assumption.
    rewrite length_drop, length_app. simpl.
    destruct (decide (length r < m)%nat).
    + replace (length r + 1 - m)%nat with 0%nat by lia.
      rewrite drop_0, <- app_assoc. simpl. f_equal. lia.
    + replace (length r + 1 - m)%nat with 1%nat by lia.
      replace (length r + S (length L) - m)%nat with (1 + length L)%nat by lia.
      replace (length r + 1 - 1 + length L - m)%nat with (length L) by lia.
      rewrite <- drop_drop. f_equal.
      replace (r ++ x :: L) with ((r ++ [x]) ++ L)
        by (rewrite <- app_assoc; reflexivity).
      rewrite (drop_app_le (r ++ [x]) L 1) by (rewrite length_app; simpl; lia).
      reflexivity.
Qed.

Lemma ring_fold_length {A} m (L : list A) : forall r,
  (length r <= m)%nat -> (length (fold_left (deque_append m) L r) <= m)%nat.
Proof.
  induction L as [|x L IH]; intros r Hr; simpl; [assumption|].
  apply IH, deque_append_length, Hr.
Qed.

(** ** The buffer *)
Section Buffer.
Variable cfg : Config.

Lemma append_loop_acc ts parts : forall ring display file_out,
  fold_left
    (fun '(ring, display, file_out) part =>
       let content := rstrip_nl part in
       let disp := disp_line ts content in
       (deque_append (MAX_LOG_LINES cfg) ring disp,
        display ++ [disp],
        file_out ++ [file_line cfg ts content]))
    parts (ring, display, file_out)
  = (fold_left (deque_append (MAX_LOG_LINES cfg))
       (map (disp_line ts) (map rstrip_nl parts)) ring,
     display ++ map (disp_line ts) (map rstrip_nl parts),
     file_out ++ map (file_line cfg ts) (map rstrip_nl parts)).
Proof.
  induction parts as [|p parts IH]; intros ring display file_out; simpl.
  - rewrite !app_nil_r. reflexivity.
  - rewrite IH, <- !app_assoc. reflexivity.
Qed.

Lemma append_loop_spec ts parts ring :
  append_loop cfg ts parts ring
  = (fold_left (deque_append (MAX_LOG_LINES cfg))
       (map (disp_line ts) (map rstrip_nl parts)) ring,
     map (disp_line ts) (map rstrip_nl parts),
     map (file_line cfg ts) (map rstrip_nl parts)).
Proof. unfold append_loop. rewrite append_loop_acc. reflexivity. Qed.

(** What [append] returns and leaves, by the contents it completes. *)
Lemma append_out ts text b g :
  (append cfg ts text b g).1.1 = rendering cfg ts (call_contents cfg text b).
Proof.
  unfold append, call_contents. destruct text as [|c text]; [reflexivity|].
  destruct (has_newline _); simpl; [|reflexivity].
  destruct (complete_parts _) as [parts partial'] eqn:E.
  rewrite append_loop_spec. reflexivity.
Qed.

Lemma append_lines ts text b g :
  lines (append cfg ts text b g).1.2
  = fold_left (deque_append (MAX_LOG_LINES cfg))
      (map (disp_line ts) (call_contents cfg text b)) (lines b).
Proof.
  unfold append, call_contents. destruct text as [|c text]; [reflexivity|].
  destruct (has_newline _); simpl; [|reflexivity].
  destruct (complete_parts _) as [parts partial'] eqn:E.
  rewrite append_loop_spec. reflexivity.
Qed.

Lemma append_buffer_writer ts text b g :
  (append cfg ts text b g).1.2 = (append cfg ts text b None).1.2.
Proof.
  unfold append. destruct text as [|c text]; [reflexivity|].
  destruct (has_newline _); simpl; [|reflexivity].
  destruct (complete_parts _) as [parts partial'] eqn:E.
  destruct (append_loop _ _ _ _) as [[? ?] ?]. reflexivity.
Qed.

(** The fragment [complete_parts] holds back has no newline. *)
Lemma complete_parts_partial data : LF ∉ (complete_parts data).2.
Proof.
  unfold complete_parts.
  destruct (last (splitlines true data)) as [p|] eqn:E; simpl; [|apply not_elem_of_nil].
  destruct (endswith_nl p) eqn:Hp; simpl; [apply not_elem_of_nil|].
  intros Hin. pose proof (splitlines_newline_last data) as H.
  rewrite Forall_forall in H. apply last_Some_elem_of in E.
  rewrite (H _ E Hin) in Hp. discriminate.
Qed.

Lemma append_partial ts text b g :
  LF ∉ _partial b -> LF ∉ _partial (append cfg ts text b g).1.2.
Proof.
  intros Hb. unfold append. destruct text as [|c text]; [assumption|].
  destruct (has_newline _) eqn:Hn; simpl.
  - pose proof (complete_parts_partial (_partial b ++ normalize cfg (c :: text))) as H.
    destruct (complete_parts _) as [parts partial'].
    destruct (append_loop _ _ _ _) as [[? ?] ?]. exact H.
  - apply has_newline_false. assumption.
Qed.

Lemma read_file_buffer fv b :
  lines (_read_file cfg fv b).2 = lines b ∧
  _partial (_read_file cfg fv b).2 = _partial b.
Proof.
  unfold _read_file. destruct (fv_exists fv); simpl; [|auto].
  destruct (fv_stat fv) as [m|]; [|auto].
  destruct (_cache b) as [[|l ls]|]; try destruct (m =? _mtime b)%Z;
    destruct (fv_read fv); auto.
Qed.
End Buffer.

(** ** Sequences of calls and of operations *)
Section Sequences.
Variable cfg : Config.
Variable lower : str -> str.

Lemma search_buffer pattern fv b :
  (search cfg lower pattern fv b).2 = (_read_file cfg fv b).2.
Proof.
  unfold search. destruct (_read_file cfg fv b) as [ls b'].
  destruct (List.filter _ ls); reflexivity.
Qed.

Lemma load_chunk_buffer end_ size fv b :
  (load_chunk cfg end_ size fv b).2 = (_read_file cfg fv b).2.
Proof.
  unfold load_chunk. destruct (_read_file cfg fv b) as [ls b'].
  destruct ls; [reflexivity|]. destruct (end_ <=? 0)%Z; [reflexivity|].
  destruct (slice _ _ _); reflexivity.
Qed.

Lemma line_count_buffer fv b :
  (line_count cfg fv b).2 = (_read_file cfg fv b).2.
Proof. unfold line_count. destruct (_read_file cfg fv b). reflexivity. Qed.


Lemma read_file_ok fv b : buffer_ok cfg b -> buffer_ok cfg (_read_file cfg fv b).2.
Proof.
  intros [H1 H2]. destruct (read_file_buffer cfg fv b) as [E1 E2].
  unfold buffer_ok. rewrite E1, E2. auto.
Qed.

Lemma append_ok ts text b g : buffer_ok cfg b -> buffer_ok cfg (append cfg ts text b g).1.2.
Proof.
  intros [H1 H2]. split.
  - rewrite append_lines. apply ring_fold_length, H1.
  - apply append_partial, H2.
Qed.

Lemma exec_ok o w : buffer_ok cfg (buf w) -> buffer_ok cfg (buf (exec cfg lower o w)).
Proof.
  intros H. destruct o; simpl.
  - pose proof (append_ok ts text (buf w) (writer w) H) as H'.
    destruct (append _ _ _ _ _) as [[? ?] ?]. exact H'.
  - exact H.
  - pose proof (line_count_buffer (view_of (disk w) (file (buf w)) stat readable) (buf w)) as E.
    destruct (line_count _ _ _) as [? b']. simpl in *. subst b'. apply read_file_ok, H.
  - pose proof (search_buffer pattern (view_of (disk w) (file (buf w)) stat readable) (buf w)) as E.
    destruct (search _ _ _ _ _) as [? b']. simpl in *. subst b'. apply read_file_ok, H.
  - pose proof (load_chunk_buffer end_ size (view_of (disk w) (file (buf w)) stat readable) (buf w)) as E.
    destruct (load_chunk _ _ _ _ _) as [? b']. simpl in *. subst b'. apply read_file_ok, H.
  - destruct H as [_ H]. split; simpl; [lia | exact H].
  - destruct (writer w) as [a|]; [|exact H].
    destruct (_run_step _ _ _ _). exact H.
Qed.

Lemma run_ok ops : forall w, buffer_ok cfg (buf w) -> buffer_ok cfg (buf (run cfg lower ops w)).
Proof.
  induction ops as [|o ops IH]; intros w H; simpl; [exact H|].
  apply IH, exec_ok, H.
Qed.

Lemma init_ok nm : buffer_ok cfg (buf (World_init cfg nm)).
Proof. split; simpl; [lia | apply not_elem_of_nil]. Qed.

Lemma feed_lines calls : forall b g,
  lines (feed cfg calls b g).1.2
  = fold_left (deque_append (MAX_LOG_LINES cfg)) (feed_display cfg calls b) (lines b).
Proof.
  induction calls as [|[ts text] calls IH]; intros b g; simpl; [reflexivity|].
  pose proof (append_lines cfg ts text b g) as E.
  pose proof (append_buffer_writer cfg ts text b g) as Eb.
  destruct (append cfg ts text b g) as [[out b1] g1]. simpl in *.
  specialize (IH b1 g1). destruct (feed cfg calls b1 g1) as [[outs b2] g2]. simpl in *.
  rewrite IH, fold_left_app, E, Eb. reflexivity.
Qed.

Lemma feed_outs calls : forall b g,
  (feed cfg calls b g).1.1
  = zip_with (fun call cs => rendering cfg call.1 cs) calls (feed_contents cfg calls b).
Proof.
  induction calls as [|[ts text] calls IH]; intros b g; simpl; [reflexivity|].
  pose proof (append_out cfg ts text b g) as E.
  pose proof (append_buffer_writer cfg ts text b g) as Eb.
  destruct (append cfg ts text b g) as [[out b1] g1]. simpl in *.
  specialize (IH b1 g1). destruct (feed cfg calls b1 g1) as [[outs b2] g2]. simpl in *.
  rewrite IH, E, Eb. reflexivity.
Qed.

Lemma feed_display_out calls : forall b g,
  join (feed_display cfg calls b) = join (map fst (feed cfg calls b g).1.1).
Proof.
  induction calls as [|[ts text] calls IH]; intros b g; simpl; [reflexivity|].
  pose proof (append_out cfg ts text b g) as E.
  pose proof (append_buffer_writer cfg ts text b g) as Eb.
  destruct (append cfg ts text b g) as [[out b1] g1]. simpl in *.
  specialize (IH b1 g1). destruct (feed cfg calls b1 g1) as [[outs b2] g2]. simpl in *.
  unfold join in *. rewrite concat_app, <- Eb, IH, E. reflexivity.
Qed.

(** C3. The ring never holds more than [MAX_LOG_LINES] entries, whatever
    operations ran; and when calls of [append] complete [MAX_LOG_LINES + k]
    lines, the ring is exactly the last [MAX_LOG_LINES] of their display
    lines in the order they were appended: the [k] oldest are gone.  The
    display lines are those the calls return, joined. *)
Theorem ring_bound_fifo :
  (forall ops nm,
      (length (lines (buf (run cfg lower ops (World_init cfg nm))))
       <= MAX_LOG_LINES cfg)%nat) ∧
  (forall ops nm calls k,
      let w := run cfg lower ops (World_init cfg nm) in
      let shown := feed_display cfg calls (buf w) in
      length shown = (MAX_LOG_LINES cfg + k)%nat ->
      lines (feed cfg calls (buf w) (writer w)).1.2 = drop k shown
      ∧ length (drop k shown) = MAX_LOG_LINES cfg
      ∧ join shown = join (map fst (feed cfg calls (buf w) (writer w)).1.1)).
Proof.
  split.
  - intros ops nm. apply (run_ok ops _ (init_ok nm)).
  - intros ops nm calls k w shown Hlen.
    destruct (run_ok ops _ (init_ok nm)) as [Hr _]. fold w in Hr.
    rewrite feed_lines. fold shown. rewrite ring_fold by exact Hr.
    split; [|split; [rewrite length_drop; lia | apply feed_display_out]].
    rewrite Hlen.
    replace (length (lines (buf w)) + (MAX_LOG_LINES cfg + k) - MAX_LOG_LINES cfg)%nat
      with (length (lines (buf w)) + k)%nat by lia.
    rewrite drop_app_add. reflexivity.
Qed.

(** C8. After every operation the partial fragment holds no newline; and
    when the partial fragment followed by the normalized input holds no
    newline, [append] stores all of it as the new partial fragment and
    returns two empty strings (empty input changes nothing). *)
Theorem partial_no_newline :
  (forall ops nm, LF ∉ _partial (buf (run cfg lower ops (World_init cfg nm)))) ∧
  (forall ts text b g,
      text ≠ [] ->
      LF ∉ _partial b ++ normalize cfg text ->
      (append cfg ts text b g).1.1 = ([], []) ∧
      _partial (append cfg ts text b g).1.2 = _partial b ++ normalize cfg text) ∧
  (forall ts b g, append cfg ts [] b g = (([], []), b, g)).
Proof.
  split; [|split].
  - intros ops nm. apply (run_ok ops _ (init_ok nm)).
  - intros ts text b g Ht Hn. apply has_newline_false in Hn.
    unfold append. destruct text as [|c text]; [congruence|].
    rewrite Hn. simpl. auto.
  - reflexivity.
Qed.
End Sequences.

(** ** Chunk boundaries *)
Section Chunking.
Variable cfg : Config.
Hypothesis normalize_plain : forall s, CR ∉ s -> normalize cfg s = s.

Lemma complete_parts_clean data :
  clean data ->
  ∃ ls r, complete_parts data = (map (fun l => l ++ [LF]) ls, r)
          ∧ data = join_nl ls ++ r ∧ Forall (fun l => LF ∉ l) ls ∧ LF ∉ r.
Proof.
  intros Hc. destruct (splitlines_clean data Hc) as (ls & r & Hp & Hd & Hls & Hr).
  exists ls, r. repeat split; trivial.
  unfold complete_parts. rewrite Hp. destruct r as [|x r].
  - rewrite app_nil_r. destruct ls as [|l ls _] using rev_ind; [reflexivity|].
    rewrite map_app. simpl. rewrite last_snoc, endswith_nl_snoc. reflexivity.
  - rewrite last_snoc.
    destruct (endswith_nl (x :: r)) eqn:E.
    + apply endswith_nl_elem in E. contradiction.
    + rewrite removelast_last. reflexivity.
Qed.

Lemma map_rstrip_lines ls :
  Forall (fun l => LF ∉ l) ls -> map rstrip_nl (map (fun l => l ++ [LF]) ls) = ls.
Proof.
  induction 1 as [|l ls Hl _ IH]; simpl; [reflexivity|].
  rewrite rstrip_nl_line, IH by assumption. reflexivity.
Qed.

(** One call on clean text: the buffered fragment and the chunk are the
    completed lines and the fragment held back. *)
Lemma call_clean ts text b g :
  clean text -> clean (_partial b) -> LF ∉ _partial b ->
  let cs := call_contents cfg text b in
  let r := _partial (append cfg ts text b g).1.2 in
  _partial b ++ text = join_nl cs ++ r ∧ Forall (fun l => LF ∉ l) cs ∧ (LF ∉ r) ∧ clean r.
Proof.
  intros Ht Hp Hnl. unfold call_contents, append.
  destruct text as [|c text]; simpl.
  { rewrite app_nil_r. repeat split; trivial. }
  rewrite (normalize_plain (c :: text)) by (apply clean_no_CR, Ht).
  assert (Hd : clean (_partial b ++ c :: text)) by (apply clean_app; auto).
  destruct (complete_parts_clean _ Hd) as (ls & r & Hcp & Hdata & Hls & Hr).
  assert (Hcr : clean r).
  { rewrite Hdata in Hd. apply clean_app in Hd as [_ Hd]. exact Hd. }
  destruct (has_newline _) eqn:Hn; simpl.
  - rewrite Hcp. simpl. rewrite map_rstrip_lines by assumption.
    destruct (append_loop _ _ _ _) as [[? ?] ?]. simpl. auto.
  - apply has_newline_false in Hn. simpl. repeat split; trivial.
Qed.

Lemma feed_clean calls : forall b g,
  clean (concat (map snd calls)) -> clean (_partial b) -> LF ∉ _partial b ->
  let groups := feed_contents cfg calls b in
  let r := _partial (feed cfg calls b g).1.2 in
  _partial b ++ concat (map snd calls) = join_nl (concat groups) ++ r
  ∧ Forall (fun l => LF ∉ l) (concat groups) ∧ LF ∉ r.
Proof.
  induction calls as [|[ts text] calls IH]; intros b g Hc Hp Hnl; simpl in *.
  { rewrite app_nil_r. repeat split; trivial. }
  apply clean_app in Hc as [Ht Hrest].
  destruct (call_clean ts text b g Ht Hp Hnl) as (E1 & F1 & N1 & C1).
  pose proof (append_buffer_writer cfg ts text b g) as Eb.
  destruct (append cfg ts text b g) as [[out b1] g1]. simpl in *.
  destruct (IH b1 g1 Hrest C1 N1) as (E2 & F2 & N2).
  destruct (feed cfg calls b1 g1) as [[outs b2] g2]. simpl in *.
  rewrite <- Eb. repeat split; trivial.
  - rewrite join_nl_app, app_assoc, E1, <- !app_assoc. f_equal. exact E2.
  - apply Forall_app. auto.
Qed.

(** C1. When the chunks of a sequence of [append] calls, put together, are
    newline-terminated lines none of which holds a line boundary of
    [splitlines] (CR, VT, FF, FS, GS, RS, NEL, LS, PS), the contents of the
    lines the calls complete are exactly those lines, in order, however the
    text was cut into chunks; nothing is held back at the end, and every
    call returns the renderings of the lines it completed. *)
Theorem chunk_boundary_invariance :
  forall (calls : list (str * str)) (ls : list str) (b : LogBuffer)
         (g : option AsyncFileWriter),
    _partial b = [] ->
    Forall no_linebreak ls ->
    concat (map snd calls) = join_nl ls ->
    let groups := feed_contents cfg calls b in
    concat groups = ls
    ∧ _partial (feed cfg calls b g).1.2 = []
    ∧ (feed cfg calls b g).1.1
      = zip_with (fun call cs => rendering cfg call.1 cs) calls groups.
Proof.
  intros calls ls b g Hp Hls Hcat groups.
  assert (Hc : clean (concat (map snd calls))) by (rewrite Hcat; apply clean_join_nl, Hls).
  destruct (feed_clean calls b g Hc) as (E & F & N).
  { rewrite Hp. constructor. }
  { rewrite Hp. apply not_elem_of_nil. }
  fold groups in E, F. rewrite Hp, Hcat in E. simpl in E.
  assert (Hls' : Forall (fun l => LF ∉ l) ls).
  { eapply Forall_impl; [exact Hls | apply no_linebreak_no_LF]. }
  destruct (join_nl_unique ls (concat groups) [] _ Hls' F (not_elem_of_nil _) N) as [E1 E2].
  { rewrite app_nil_r. exact E. }
  repeat split; auto. apply feed_outs.
Qed.
End Chunking.

(** ** The writer *)

(** C4. [write] always returns (it is a total function of the writer
    state).  For a text that is not empty: when the queue is at capacity
    the job is not enqueued and the drop counter grows by one, and when it
    is not at capacity the job joins the end of the queue and the counter
    keeps its value.  An empty text is not a job: queue and counter stay as
    they are. *)
Theorem write_enqueue_or_drop :
  forall (p : path) (text : str) (w : AsyncFileWriter),
    (text = [] -> write p text w = w) ∧
    (text ≠ [] -> q_full w = true ->
       _q (write p text w) = _q w ∧ _dropped (write p text w) = _dropped w + 1) ∧
    (text ≠ [] -> q_full w = false ->
       _q (write p text w) = _q w ++ [(p, text)] ∧
       _dropped (write p text w) = _dropped w) ∧
    _q_maxsize (write p text w) = _q_maxsize w.
Proof.
  intros p text w. unfold write. destruct text as [|c text].
  - repeat split; congruence.
  - destruct (q_full w); repeat split; intros; simpl; congruence.
Qed.

(** C2. The writer has one drop counter for all destinations.  When it is
    positive and the worker writes the next job with success, the count is
    appended as one diagnostic line to the file of that job, whatever its
    destination, if this second write succeeds too, and the counter is zero
    afterwards either way; no other file changes.  A job whose write fails
    leaves counter and disk as they are. *)
Theorem drop_note_on_next_write :
  forall (w : AsyncFileWriter) (d : Disk) (p : path) (text : str)
         (q' : list (path * str)) (note_ok : bool),
    _q w = (p, text) :: q' ->
    0 < _dropped w ->
    (let r := _run_step true note_ok w d in
     _q r.1 = q' ∧ _dropped r.1 = 0 ∧
     r.2 !! p = Some (default [] (d !! p) ++ text ++
                      (if note_ok then drop_note (_dropped w) else [])) ∧
     (forall p', p' ≠ p -> r.2 !! p' = d !! p')) ∧
    (let r := _run_step false note_ok w d in
     _q r.1 = q' ∧ _dropped r.1 = _dropped w ∧ r.2 = d).
Proof.
  intros w d p text q' note_ok Hq Hd. unfold _run_step. rewrite Hq.
  apply N.ltb_lt in Hd. rewrite Hd. simpl. split; [|auto].
  repeat split.
  - destruct note_ok; unfold disk_append.
    + rewrite !lookup_insert_eq. simpl. rewrite <- app_assoc. reflexivity.
    + rewrite lookup_insert_eq, app_nil_r. reflexivity.
  - intros p' Hp. destruct note_ok; unfold disk_append;
      rewrite ?lookup_insert_ne by congruence; reflexivity.
Qed.

(** ** The history reader *)
Section Reader.
Variable cfg : Config.

Lemma slice_length {A} (i j : Z) (l : list A) :
  (0 <= i)%Z -> (0 <= j)%Z ->
  Z.of_nat (length (slice i j l)) = Z.max 0 (Z.min j (Z.of_nat (length l)) - i).
Proof.
  intros Hi Hj. unfold slice. rewrite length_drop, length_take. lia.
Qed.

Lemma slice_lookup {A} (i j : Z) (l : list A) (k : nat) :
  (0 <= i)%Z -> (k < length (slice i j l))%nat ->
  slice i j l !! k = l !! (Z.to_nat i + k)%nat.
Proof.
  intros Hi Hk. unfold slice in *. rewrite lookup_drop.
  rewrite length_drop, length_take in Hk.
  apply lookup_take_lt. lia.
Qed.

(** C5. With [n] historical lines, [0 < end], [0 < size] and a start
    [max 0 (end - size)] below [n], [load_chunk] returns the lines with
    indices from the start to [min end n - 1], each re-colorized and
    newline-terminated, and the start as [new_start]; it returns the empty
    text and 0 when [end <= 0] or there is no line.  On ten lines,
    [load_chunk 10 5] returns lines 5 to 9 and 5. *)
Theorem load_chunk_pagination :
  (forall (end_ size : Z) (fv : FileView) (b : LogBuffer),
      let ls := (_read_file cfg fv b).1 in
      let n := Z.of_nat (length ls) in
      let start := Z.max 0 (end_ - size) in
      let res := (load_chunk cfg end_ size fv b).1 in
      ((0 < end_)%Z -> (0 < size)%Z -> (start < n)%Z ->
       ∃ chunk, res = (render_lines chunk, start) ∧
                Z.of_nat (length chunk) = (Z.min end_ n - start)%Z ∧
                forall i, (i < length chunk)%nat ->
                          chunk !! i = ls !! (Z.to_nat start + i)%nat) ∧
      ((end_ <= 0)%Z ∨ n = 0%Z -> res = ([], 0%Z))) ∧
  (forall (fv : FileView) (b : LogBuffer),
      let ls := (_read_file cfg fv b).1 in
      length ls = 10%nat ->
      (load_chunk cfg 10 5 fv b).1 = (render_lines (drop 5 ls), 5%Z)).
Proof.
  split.
  - intros end_ size fv b ls n start res. subst res ls n start. unfold load_chunk.
    destruct (_read_file cfg fv b) as [ls b']. simpl. split.
    + intros He Hs Hn. destruct ls as [|l ls]; [simpl in Hn; lia|].
      destruct (Z.leb_spec end_ 0); [lia|].
      pose proof (slice_length (Z.max 0 (end_ - size)) end_ (l :: ls)
                    ltac:(lia) ltac:(lia)) as Hlen.
      exists (slice (Z.max 0 (end_ - size)) end_ (l :: ls)).
      destruct (slice (Z.max 0 (end_ - size)) end_ (l :: ls)) as [|x chunk] eqn:E.
      * simpl in Hlen, Hn. lia.
      * rewrite <- E in *. repeat split; [lia|].
        intros i Hi. apply slice_lookup; [lia | exact Hi].
    + intros [He | Hn].
      * destruct ls; [reflexivity|]. destruct (Z.leb_spec end_ 0); [reflexivity | lia].
      * destruct ls; [reflexivity | simpl in Hn; lia].
  - intros fv b ls Hlen. subst ls. unfold load_chunk.
    destruct (_read_file cfg fv b) as [ls b']. simpl in *.
    do 10 (destruct ls as [|? ls]; [discriminate|]). destruct ls; [|discriminate].
    reflexivity.
Qed.

(** C10. When the start [max 0 (end - size)] is not below the number of
    historical lines, [load_chunk] returns the empty text and 0. *)
Theorem load_chunk_beyond_history :
  forall (end_ size : Z) (fv : FileView) (b : LogBuffer),
    (Z.max 0 (end_ - size) >= Z.of_nat (length (_read_file cfg fv b).1))%Z ->
    (load_chunk cfg end_ size fv b).1 = ([], 0%Z).
Proof.
  intros end_ size fv b H. unfold load_chunk.
  destruct (_read_file cfg fv b) as [ls b']. simpl in *.
  destruct ls as [|l ls]; [reflexivity|].
  destruct (Z.leb_spec end_ 0); [reflexivity|].
  pose proof (slice_length (Z.max 0 (end_ - size)) end_ (l :: ls)
                ltac:(lia) ltac:(lia)) as Hlen.
  destruct (slice _ _ _) as [|x chunk]; [reflexivity|].
  simpl in Hlen, H. lia.
Qed.
End Reader.

(** ** The source of the history *)
Section Source.
Variable cfg : Config.

(** C7. When the existence test on the backing file returns, a call of
    [line_count] returns a number, whatever [stat] and the read then do:
    their failures are caught.  It is the number of lines of the ring when
    the file does not exist, when [stat] fails, or when the file has to be
    read and cannot be.  When the file exists and the buffer holds a cache
    that is not empty, taken at the modification time [stat] reports now,
    it is the number of cached lines, and the file is not read.  Otherwise
    it is the number of lines of the text of the file. *)
Theorem line_count_source :
  forall (fv : FileView) (b : LogBuffer),
    ∃ (n : nat) (b' : LogBuffer),
      line_count_call cfg (Probed fv) b = Some (n, b') ∧
      let hit m := ∃ c, _cache b = Some c ∧ c ≠ [] ∧ m = _mtime b in
      (fv_exists fv = false -> n = length (lines b)) ∧
      (fv_exists fv = true -> fv_stat fv = None -> n = length (lines b)) ∧
      (forall m c, fv_exists fv = true -> fv_stat fv = Some m ->
                   _cache b = Some c -> c ≠ [] -> m = _mtime b -> n = length c) ∧
      (forall m text, fv_exists fv = true -> fv_stat fv = Some m -> ¬ hit m ->
                      fv_read fv = Some text ->
                      n = length (splitlines false (normalize cfg text))) ∧
      (forall m, fv_exists fv = true -> fv_stat fv = Some m -> ¬ hit m ->
                 fv_read fv = None -> n = length (lines b)).
Proof.
  intros fv b. exists (line_count cfg fv b).1, (line_count cfg fv b).2.
  split.
  { unfold line_count_call, _read_file_call, line_count.
    destruct (_read_file cfg fv b). reflexivity. }
  intros hit. subst hit. unfold line_count, _read_file, ring_history.
  repeat split.
  - intros ->. simpl. apply length_map.
  - intros -> ->. simpl. apply length_map.
  - intros m c -> -> -> Hc ->. simpl. destruct c; [congruence|].
    rewrite Z.eqb_refl. reflexivity.
  - intros m text -> -> Hhit ->. simpl.
    destruct (_cache b) as [[|l ls]|]; try reflexivity.
    destruct (Z.eqb_spec m (_mtime b)); [|reflexivity].
    exfalso. apply Hhit. exists (l :: ls). auto.
  - intros m -> -> Hhit ->. simpl.
    destruct (_cache b) as [[|l ls]|]; try apply length_map.
    destruct (Z.eqb_spec m (_mtime b)); [|apply length_map].
    exfalso. apply Hhit. exists (l :: ls). auto.
Qed.

(** C9. [clear] empties the ring and drops the cache whether or not the
    file could be truncated, so that [get_recent] is empty.  When no partial
    fragment is pending, the ring has room for a line and the normalizer
    leaves the text as it is, [clear] followed by [append] of "x" and a
    newline leaves [get_recent] with exactly the display line of "x". *)
Theorem clear_then_append :
  forall (truncate_ok : bool) (b : LogBuffer) (d : Disk),
    let b' := (clear truncate_ok b d).1 in
    lines b' = [] ∧ _cache b' = None ∧ get_recent b' = [] ∧
    (forall ts g,
        _partial b = [] ->
        (0 < MAX_LOG_LINES cfg)%nat ->
        normalize cfg (py "x" ++ [LF]) = py "x" ++ [LF] ->
        get_recent (append cfg ts (py "x" ++ [LF]) b' g).1.2 = disp_line ts (py "x")).
Proof.
  intros truncate_ok b d b'. subst b'.
  split; [reflexivity|]. split; [reflexivity|]. split; [reflexivity|].
  intros ts g Hp Hm Hn. unfold get_recent. rewrite append_lines.
  unfold call_contents. simpl. simpl in Hn. rewrite Hn, Hp. simpl.
  unfold deque_append. simpl. case_decide; [lia|]. simpl.
  rewrite app_nil_r. reflexivity.
Qed.
End Source.

(** ** Search *)

Lemma same_letter_lower a b :
  same_letter a b ↔ ascii_lower_char a = ascii_lower_char b.
Proof.
  unfold same_letter, ascii_lower_char.
  destruct (N.leb_spec 65 a), (N.leb_spec a 90), (N.leb_spec 65 b), (N.leb_spec b 90);
    simpl; lia.
Qed.

Lemma same_letters_lower s : forall p,
  Forall2 same_letter s p ↔ ascii_lower s = ascii_lower p.
Proof.
  unfold ascii_lower. induction s as [|a s IH]; intros [|b p]; simpl.
  - split; [reflexivity | constructor].
  - split; [inversion 1 | discriminate].
  - split; [inversion 1 | discriminate].
  - split.
    + inversion 1 as [|? ? ? ? Hab Hsp]; subst.
      apply same_letter_lower in Hab. apply IH in Hsp. congruence.
    + intros E. injection E as Hab Hsp. constructor.
      * apply same_letter_lower, Hab.
      * apply IH, Hsp.
Qed.

(** Occurring up to case is occurring after lower-casing both texts letter
    by letter. *)
Lemma occurs_ascii_lower pattern line :
  occurs_ignoring_case pattern line
  ↔ ∃ pre suf, ascii_lower line = pre ++ ascii_lower pattern ++ suf.
Proof.
  unfold occurs_ignoring_case. split.
  - intros (pre & s & suf & -> & Hs). apply same_letters_lower in Hs.
    exists (ascii_lower pre), (ascii_lower suf).
    unfold ascii_lower in *. rewrite !map_app, Hs. reflexivity.
  - intros (pre & suf & E). unfold ascii_lower in E.
    apply map_eq_app in E as (l1 & l2 & -> & <- & E).
    apply map_eq_app in E as (s & l3 & -> & Hs & <-).
    exists l1, s, l3. split; [reflexivity|]. apply same_letters_lower, Hs.
Qed.

#[local] Instance occurs_ignoring_case_dec pattern line :
  Decision (occurs_ignoring_case pattern line).
Proof.
  destruct (contains (ascii_lower pattern) (ascii_lower line)) eqn:E; [left | right].
  - apply occurs_ascii_lower, contains_spec, E.
  - intros H. apply occurs_ascii_lower, contains_spec in H. congruence.
Defined.

Lemma greek_lower_ascii s : is_ascii s -> greek_lower s = ascii_lower s.
Proof.
  intros H. unfold greek_lower. generalize false. unfold is_ascii in H.
  induction H as [|c s Hc _ IH]; intros flag; [reflexivity|].
  simpl. rewrite IH. f_equal.
  unfold greek_lower_char.
  destruct (N.eqb_spec c 931); [lia|].
  destruct (N.leb_spec 913 c); [lia|]. reflexivity.
Qed.

Section Search.
Variable cfg : Config.
Variable lower : str -> str.
Hypothesis lower_ascii :
  forall s, Forall (fun c => c < 128) s -> lower s = ascii_lower s.

#[local] Instance ci_contains_dec pattern line : Decision (ci_contains lower pattern line).
Proof.
  destruct (contains (lower pattern) (lower line)) eqn:E; [left | right];
    unfold ci_contains.
  - apply contains_spec. exact E.
  - intros H. apply contains_spec in H. congruence.
Defined.

Lemma filter_ci_contains pattern ls :
  List.filter (fun l => contains (lower pattern) (lower l)) ls
  = filter (ci_contains lower pattern) ls.
Proof.
  induction ls as [|l ls IH]; [reflexivity|]. simpl. rewrite filter_cons, IH.
  destruct (contains (lower pattern) (lower l)) eqn:E; case_decide as H; trivial.
  - exfalso. apply H, contains_spec, E.
  - apply contains_spec in H. congruence.
Qed.

Lemma search_by_lower pattern fv b :
  (search cfg lower pattern fv b).1
  = (render_lines (filter (ci_contains lower pattern) (_read_file cfg fv b).1),
     length (filter (ci_contains lower pattern) (_read_file cfg fv b).1)).
Proof.
  unfold search. destruct (_read_file cfg fv b) as [ls b']. simpl.
  rewrite filter_ci_contains. destruct (filter _ ls); reflexivity.
Qed.

Lemma ci_contains_occurs pattern line :
  is_ascii pattern -> is_ascii line ->
  ci_contains lower pattern line ↔ occurs_ignoring_case pattern line.
Proof.
  intros Hp Hl. unfold ci_contains.
  rewrite (lower_ascii pattern Hp), (lower_ascii line Hl).
  symmetry. apply occurs_ascii_lower.
Qed.

Lemma filter_ci_occurs pattern ls :
  is_ascii pattern -> Forall is_ascii ls ->
  filter (ci_contains lower pattern) ls = filter (occurs_ignoring_case pattern) ls.
Proof.
  intros Hp. induction 1 as [|l ls Hl _ IH]; [reflexivity|].
  rewrite !filter_cons, IH.
  pose proof (ci_contains_occurs pattern l Hp Hl).
  repeat case_decide; tauto.
Qed.

(** C6. [search] returns the historical lines whose lower-cased text holds
    the lower-cased pattern, in their order, each re-colorized and
    newline-terminated, and their number.  When the pattern and the lines
    are ASCII these are exactly the lines in which the pattern occurs up to
    the case of its letters.  The empty pattern keeps every line; on the
    lines "INFO start", "ERROR boom", "info ok" the pattern "error" has the
    one match "ERROR boom"; and a match that starts with a bracketed
    timestamp comes back with the timestamp in colour. *)
Theorem search_case_insensitive :
  (forall (pattern : str) (fv : FileView) (b : LogBuffer),
      let ls := (_read_file cfg fv b).1 in
      let matches := filter (ci_contains lower pattern) ls in
      (search cfg lower pattern fv b).1 = (render_lines matches, length matches)) ∧
  (forall (pattern : str) (fv : FileView) (b : LogBuffer),
      is_ascii pattern ->
      Forall is_ascii (_read_file cfg fv b).1 ->
      let matches := filter (occurs_ignoring_case pattern) (_read_file cfg fv b).1 in
      (search cfg lower pattern fv b).1 = (render_lines matches, length matches)) ∧
  (forall ls : list str, filter (ci_contains lower []) ls = ls) ∧
  (forall (fv : FileView) (b : LogBuffer),
      (_read_file cfg fv b).1 = [py "INFO start"; py "ERROR boom"; py "info ok"] ->
      (search cfg lower (py "error") fv b).1 = (py "ERROR boom" ++ [LF], 1%nat)) ∧
  (forall (fv : FileView) (b : LogBuffer),
      (_read_file cfg fv b).1 = [py "[10:00:00] ERROR boom"; py "[10:00:01] info ok"] ->
      (search cfg lower (py "error") fv b).1
      = (py "[" ++ [ESC] ++ py "[94m10:00:00" ++ [ESC] ++ py "[0m] ERROR boom" ++ [LF],
         1%nat)).
Proof.
  split; [|split; [|split; [|split]]].
  - intros pattern fv b ls matches. apply search_by_lower.
  - intros pattern fv b Hp Hls matches. subst matches.
    rewrite search_by_lower, (filter_ci_occurs pattern _ Hp Hls). reflexivity.
  - intros ls. induction ls as [|l ls IH]; [reflexivity|].
    rewrite filter_cons, IH. case_decide as H; [reflexivity|].
    exfalso. apply H. exists [], (lower l).
    rewrite (lower_ascii []) by constructor. reflexivity.
  - intros fv b E. unfold search.
    destruct (_read_file cfg fv b) as [ls b']. simpl in E. subst ls.
    cbn [List.filter].
    rewrite !lower_ascii by (vm_compute; repeat constructor).
    reflexivity.
  - intros fv b E. unfold search.
    destruct (_read_file cfg fv b) as [ls b']. simpl in E. subst ls.
    cbn [List.filter].
    rewrite !lower_ascii by (vm_compute; repeat constructor).
    reflexivity.
Qed.
End Search.

(** * Further properties *)

(** ** Lines and brackets *)

Lemma splitlines_line k l rest :
  no_linebreak l ->
  splitlines k (l ++ LF :: rest) = (l ++ (if k then [LF] else [])) :: splitlines k rest.
Proof.
  induction 1 as [|c l Hc _ IH].
  - apply splitlines_LF.
  - change ((c :: l) ++ LF :: rest) with (c :: (l ++ LF :: rest)).
    rewrite (splitlines_plain _ _ _ Hc), IH. reflexivity.
Qed.

Lemma splitlines_join_nl ls :
  Forall no_linebreak ls -> splitlines false (join_nl ls) = ls.
Proof.
  induction 1 as [|l ls Hl _ IH]; [reflexivity|].
  unfold join_nl in *. simpl. rewrite <- app_assoc. simpl.
  rewrite (splitlines_line false l _ Hl), IH, app_nil_r. reflexivity.
Qed.

Lemma find_char_absent c s : c ∉ s -> find_char c s = (-1)%Z.
Proof.
  induction s as [|d s IH]; intros H; [reflexivity|].
  apply not_elem_of_cons in H as [Hd Hs]. simpl. rewrite (IH Hs).
  destruct (N.eqb_spec d c); [congruence | reflexivity].
Qed.

Lemma find_char_first c t rest :
  c ∉ t -> find_char c (t ++ c :: rest) = Z.of_nat (length t).
Proof.
  induction t as [|d t IH]; intros H; simpl.
  - rewrite N.eqb_refl. reflexivity.
  - apply not_elem_of_cons in H as [Hd Ht]. rewrite (IH Ht).
    destruct (N.eqb_spec d c); [congruence|].
    destruct (Z.ltb_spec (Z.of_nat (length t)) 0); lia.
Qed.

Lemma colorize_wrapped t rest :
  93 ∉ t ->
  _colorize (91 :: t ++ 93 :: rest)
  = py "[" ++ [ESC] ++ py "[94m" ++ t ++ [ESC] ++ py "[0m]" ++ rest.
Proof.
  intros H. unfold _colorize.
  change (startswith (py "[") (91 :: t ++ 93 :: rest)) with true.
  assert (E : find_char 93 (91 :: t ++ 93 :: rest) = Z.of_nat (S (length t))).
  { apply (find_char_first 93 (91 :: t) rest).
    apply not_elem_of_cons. split; [discriminate | exact H]. }
  cbv beta iota zeta. rewrite E.
  destruct (Z.ltb_spec 0 (Z.of_nat (S (length t)))); [|lia].
  unfold slice.
  replace (Z.to_nat (Z.of_nat (S (length t)) + 1)) with (S (S (length t))) by lia.
  rewrite Nat2Z.id. change (Z.to_nat 1) with 1%nat.
  rewrite firstn_cons, !skipn_cons, drop_0, take_app_length.
  replace (t ++ 93 :: rest) with ((t ++ [93]) ++ rest)
    by (rewrite <- app_assoc; reflexivity).
  rewrite drop_app_length' by (rewrite length_app; simpl; lia).
  reflexivity.
Qed.

(** X1. [_colorize] leaves a line alone unless it starts with an opening
    bracket and has a closing one; then the text between the first bracket
    and the first closing bracket is wrapped in the colour codes and the
    rest of the line is kept as it is. *)
Theorem colorize_bracket_prefix :
  (forall line, startswith (py "[") line = false -> _colorize line = line) ∧
  (forall t, 93 ∉ t -> _colorize (py "[" ++ t) = py "[" ++ t) ∧
  (forall t rest,
      93 ∉ t ->
      _colorize (py "[" ++ t ++ py "]" ++ rest)
      = py "[" ++ [ESC] ++ py "[94m" ++ t ++ [ESC] ++ py "[0m]" ++ rest).
Proof.
  split; [|split].
  - intros line H. unfold _colorize. rewrite H. reflexivity.
  - intros t H. unfold _colorize.
    change (py "[" ++ t) with (91 :: t).
    change (startswith (py "[") (91 :: t)) with true. cbv beta iota zeta.
    rewrite find_char_absent; [reflexivity|].
    apply not_elem_of_cons. split; [discriminate | exact H].
  - intros t rest H. apply (colorize_wrapped t rest H).
Qed.

(** The persisted form of a line comes back from [_colorize] as its
    display form. *)
Lemma colorize_plain_line ts content :
  93 ∉ ts -> _colorize (plain_line ts content) ++ [LF] = disp_line ts content.
Proof.
  intros H. unfold plain_line, disp_line.
  change (py "[" ++ ts ++ py "] " ++ content) with (91 :: ts ++ 93 :: (py " " ++ content)).
  rewrite (colorize_wrapped ts _ H).
  rewrite <- !app_assoc. reflexivity.
Qed.

(** ** What [append] keeps and hands on *)

Lemma splitlines_cons k c s :
  splitlines k (c :: s)
  = if is_linebreak c then
      match s with
      | d :: s'' =>
          if (c =? CR) && (d =? LF)
          then (if k then [c; d] else []) :: splitlines k s''
          else (if k then [c] else []) :: splitlines k s
      | [] => [if k then [c] else []]
      end
    else cons_part c (splitlines k s).
Proof. reflexivity. Qed.

Lemma splitlines_concat_aux n : forall s,
  (length s <= n)%nat ->
  concat (splitlines true s) = s
  ∧ Forall (fun p => LF ∉ removelast p) (splitlines true s).
Proof.
  induction n as [|n IH]; intros s Hlen.
  { destruct s; [|simpl in Hlen; lia]. split; [reflexivity | constructor]. }
  destruct s as [|c s]; [split; [reflexivity | constructor]|].
  simpl in Hlen. rewrite splitlines_cons.
  destruct (is_linebreak c) eqn:Hc.
  - destruct s as [|d s'].
    + split; [reflexivity|]. repeat constructor. simpl. apply not_elem_of_nil.
    + destruct ((c =? CR) && (d =? LF)) eqn:Hcr.
      * destruct (IH s' ltac:(simpl in Hlen; lia)) as [E F]. split.
        -- rewrite concat_cons, E. reflexivity.
        -- constructor; [|exact F].
           apply andb_true_iff in Hcr as [Hcr _]. apply N.eqb_eq in Hcr. subst c.
           simpl. intros H. apply list_elem_of_singleton in H. discriminate.
      * destruct (IH (d :: s') ltac:(lia)) as [E F]. split.
        -- rewrite concat_cons, E. reflexivity.
        -- constructor; [simpl; apply not_elem_of_nil | exact F].
  - destruct (IH s ltac:(lia)) as [E F].
    destruct (splitlines true s) as [|p ps] eqn:Hs.
    + simpl in E. subst s. split; [reflexivity|].
      repeat constructor. simpl. apply not_elem_of_nil.
    + split; [simpl; simpl in E; rewrite E; reflexivity|].
      inversion F as [|? ? Hp Hps]; subst. constructor; [|assumption].
      destruct p as [|x p]; [simpl; apply not_elem_of_nil|].
      change (removelast (c :: x :: p)) with (c :: removelast (x :: p)).
      apply not_elem_of_cons. split; [intros E'; subst c; discriminate | exact Hp].
Qed.

(** The pieces of [splitlines] with their ends, joined, are the text. *)
Lemma splitlines_concat s : concat (splitlines true s) = s.
Proof. apply (splitlines_concat_aux (length s)). lia. Qed.

Lemma splitlines_inner_newline s :
  Forall (fun p => LF ∉ removelast p) (splitlines true s).
Proof. apply (splitlines_concat_aux (length s)). lia. Qed.

Lemma rstrip_nl_keep l c : c ≠ LF -> rstrip_nl (l ++ [c]) = l ++ [c].
Proof.
  intros Hc. induction l as [|d l IH]; simpl.
  - destruct (N.eqb_spec c LF); congruence.
  - rewrite IH. destruct l; reflexivity.
Qed.

Lemma rstrip_nl_inner p : LF ∉ removelast p -> LF ∉ rstrip_nl p.
Proof.
  destruct p as [|c l _] using rev_ind; [intros _; apply not_elem_of_nil|].
  rewrite removelast_last. intros H.
  destruct (N.eq_dec c LF) as [->|Hc].
  - rewrite rstrip_nl_line by exact H. exact H.
  - rewrite rstrip_nl_keep by exact Hc.
    rewrite elem_of_app, list_elem_of_singleton. intros [?|?]; congruence.
Qed.

Lemma complete_parts_join data :
  join (complete_parts data).1 ++ (complete_parts data).2 = data.
Proof.
  unfold complete_parts, join.
  destruct (last (splitlines true data)) as [p|] eqn:E; simpl.
  - destruct (endswith_nl p); simpl.
    + rewrite app_nil_r. apply splitlines_concat.
    + rewrite <- (splitlines_concat data) at 2.
      apply last_Some in E as [l' ->].
      rewrite removelast_last, concat_app. simpl. rewrite app_nil_r. reflexivity.
  - rewrite app_nil_r. apply splitlines_concat.
Qed.

Lemma complete_parts_sublist data :
  Forall (fun p => LF ∉ removelast p) (complete_parts data).1.
Proof.
  unfold complete_parts. pose proof (splitlines_inner_newline data) as F.
  destruct (last (splitlines true data)) as [p|] eqn:E; simpl; [|exact F].
  destruct (endswith_nl p); simpl; [exact F|].
  apply last_Some in E as [l' El]. rewrite El in *. rewrite removelast_last.
  apply Forall_app in F as [F _]. exact F.
Qed.


Section Ingest.
Variable cfg : Config.

Lemma append_complete ts text b g :
  text ≠ [] ->
  let data := _partial b ++ normalize cfg text in
  let cs := map rstrip_nl (complete_parts data).1 in
  has_newline data = true ->
  append cfg ts text b g
  = (rendering cfg ts cs,
     {| name := name b;
        lines := fold_left (deque_append (MAX_LOG_LINES cfg)) (map (disp_line ts) cs) (lines b);
        file := file b; _cache := None; _mtime := _mtime b;
        _partial := (complete_parts data).2 |},
     Some (write (file b) (rendering cfg ts cs).2 (_writer g))).
Proof.
  intros Ht data cs Hn. subst data cs. unfold append.
  destruct text as [|c text]; [congruence|]. rewrite Hn. simpl.
  destruct (complete_parts _) as [parts partial']. simpl.
  rewrite append_loop_spec. reflexivity.
Qed.

Lemma disp_line_nonempty ts c : disp_line ts c ≠ [].
Proof. discriminate. Qed.

Lemma file_line_nonempty ts c : file_line cfg ts c ≠ [].
Proof. discriminate. Qed.

Lemma rendering_nonempty ts cs :
  cs ≠ [] -> (rendering cfg ts cs).1 ≠ [] ∧ (rendering cfg ts cs).2 ≠ [].
Proof.
  destruct cs as [|c cs]; [congruence|]. intros _. split; discriminate.
Qed.


(** X3. [append] loses no character: the segments it completes, with
    their line ends, followed by the fragment it keeps are the fragment it
    had followed by the normalized text; the contents it renders are those
    segments without their trailing newlines. *)
Theorem append_keeps_all_text :
  forall (ts text : str) (b : LogBuffer) (g : option AsyncFileWriter),
    text ≠ [] ->
    ∃ parts,
      join parts ++ _partial (append cfg ts text b g).1.2
      = _partial b ++ normalize cfg text
      ∧ call_contents cfg text b = map rstrip_nl parts
      ∧ (append cfg ts text b g).1.1
        = rendering cfg ts (map rstrip_nl parts).
Proof.
  intros ts text b g Ht.
  destruct (has_newline (_partial b ++ normalize cfg text)) eqn:Hn.
  - exists (complete_parts (_partial b ++ normalize cfg text)).1.
    rewrite (append_complete ts text b g Ht Hn). simpl.
    split; [apply complete_parts_join|]. split; [|reflexivity].
    unfold call_contents. destruct text; [congruence|]. rewrite Hn. reflexivity.
  - exists []. unfold append, call_contents.
    destruct text as [|c text]; [congruence|]. rewrite Hn. simpl. auto.
Qed.

Lemma call_contents_no_newline text b :
  Forall (fun c => LF ∉ c) (call_contents cfg text b).
Proof.
  unfold call_contents. destruct text as [|c text]; [constructor|].
  destruct (has_newline _); [|constructor].
  pose proof (complete_parts_sublist (_partial b ++ normalize cfg (c :: text))) as F.
  induction F as [|p ps Hp _ IH]; simpl; constructor; [|exact IH].
  apply rstrip_nl_inner, Hp.
Qed.

Lemma disp_line_prefix ts c : disp_line ts c = (disp_prefix ts ++ c) ++ [LF].
Proof. unfold disp_line, disp_prefix. rewrite <- !app_assoc. reflexivity. Qed.

Lemma display_join ts cs :
  join (map (disp_line ts) cs) = join_nl (map (fun c => disp_prefix ts ++ c) cs).
Proof.
  unfold join, join_nl. induction cs as [|c cs IH]; [reflexivity|].
  rewrite !map_cons, !concat_cons, IH, disp_line_prefix. reflexivity.
Qed.

Lemma disp_prefix_no_newline ts : LF ∉ ts -> LF ∉ disp_prefix ts.
Proof.
  intros Hts. unfold disp_prefix. rewrite !elem_of_app.
  assert (H1 : LF ∉ py "[") by (apply has_newline_false; reflexivity).
  assert (H2 : LF ∉ [ESC]) by (apply has_newline_false; reflexivity).
  assert (H3 : LF ∉ py "[94m") by (apply has_newline_false; reflexivity).
  assert (H4 : LF ∉ py "[0m] ") by (apply has_newline_false; reflexivity).
  tauto.
Qed.

(** X4. When the timestamp holds no newline, the display text a call of
    [append] returns is newline-terminated lines, one for each segment the
    call completes (prefix and content), and holds no other newline: cut at
    its newlines it gives back exactly those lines and nothing is left
    over.  The same lines, each with its newline, are what the call appends
    to the ring. *)
Theorem display_text_one_line_each :
  forall (ts text : str) (b : LogBuffer) (g : option AsyncFileWriter),
    LF ∉ ts ->
    let shown := (append cfg ts text b g).1.1.1 in
    let dl := map (fun c => disp_prefix ts ++ c) (call_contents cfg text b) in
    shown = join_nl dl ∧
    Forall (fun l => LF ∉ l) dl ∧
    (forall ls r, Forall (fun l => LF ∉ l) ls -> LF ∉ r ->
                  shown = join_nl ls ++ r -> ls = dl ∧ r = []) ∧
    lines (append cfg ts text b g).1.2
    = fold_left (deque_append (MAX_LOG_LINES cfg))
        (map (fun l => l ++ [LF]) dl) (lines b).
Proof.
  intros ts text b g Hts shown dl.
  assert (Hshown : shown = join_nl dl).
  { subst shown dl. rewrite append_out. unfold rendering. cbn [fst].
    apply display_join. }
  assert (Hdl : Forall (fun l => LF ∉ l) dl).
  { subst dl. apply Forall_map.
    eapply Forall_impl; [apply call_contents_no_newline|].
    intros c Hc. change (LF ∉ disp_prefix ts ++ c). intros Hin.
    apply elem_of_app in Hin as [Hin|Hin];
      [exact (disp_prefix_no_newline ts Hts Hin) | exact (Hc Hin)]. }
  split; [exact Hshown|]. split; [exact Hdl|]. split.
  - intros ls r Hls Hr E. rewrite Hshown in E.
    apply (join_nl_unique ls dl r [] Hls Hdl Hr (not_elem_of_nil _)).
    rewrite app_nil_r. symmetry. exact E.
  - rewrite append_lines. f_equal. subst dl. rewrite map_map.
    apply map_ext. intros c. apply disp_line_prefix.
Qed.

(** X5. From an empty ring, while the calls complete no more than
    [MAX_LOG_LINES] lines in all, [get_recent] is the display texts the
    calls returned, joined in call order. *)
Theorem get_recent_accumulates :
  forall (calls : list (str * str)) (b : LogBuffer) (g : option AsyncFileWriter),
    lines b = [] ->
    (length (feed_display cfg calls b) <= MAX_LOG_LINES cfg)%nat ->
    get_recent (feed cfg calls b g).1.2 = join (map fst (feed cfg calls b g).1.1).
Proof.
  intros calls b g Hb Hlen. unfold get_recent.
  rewrite feed_lines, Hb, ring_fold by (simpl; lia). simpl.
  replace (length (feed_display cfg calls b) - MAX_LOG_LINES cfg)%nat with 0%nat by lia.
  rewrite drop_0. apply feed_display_out.
Qed.
End Ingest.

(** ** The queue and the worker *)

Lemma texts_for_cons p p' t q :
  texts_for p ((p', t) :: q)
  = if decide (p' = p) then t :: texts_for p q else texts_for p q.
Proof.
  unfold texts_for. rewrite filter_cons. simpl. case_decide; reflexivity.
Qed.

Lemma written_lookup q : forall (d : Disk) (p : path),
  written q d !! p
  = match texts_for p q with
    | [] => d !! p
    | ts => Some (default [] (d !! p) ++ concat ts)
    end.
Proof.
  induction q as [|[p' t] q IH]; intros d p; [reflexivity|].
  unfold written in *. simpl. rewrite IH, texts_for_cons. unfold disk_append.
  case_decide as Hp.
  - subst p'. rewrite lookup_insert_eq. simpl.
    destruct (texts_for p q); simpl; rewrite <- ?app_assoc, ?app_nil_r; reflexivity.
  - rewrite lookup_insert_ne by exact Hp. reflexivity.
Qed.

Lemma worker_steps_drain oks : forall (w : AsyncFileWriter) (d : Disk),
  _dropped w = 0 ->
  Forall (fun ok => ok.1 = true) oks ->
  length oks = length (_q w) ->
  worker_steps oks w d
  = ({| _q := []; _q_maxsize := _q_maxsize w; _dropped := 0 |}, written (_q w) d).
Proof.
  induction oks as [|[a b] oks IH]; intros [q m n] d Hn Hok Hlen; simpl in *.
  - destruct q; [|discriminate]. subst n. reflexivity.
  - destruct q as [|[p t] q]; [discriminate|].
    inversion Hok as [|? ? Ha Hoks]; subst. simpl in Ha. subst a.
    unfold _run_step. simpl.
    rewrite IH; simpl; auto.
Qed.

(** X6. With no drop pending and every write succeeding, as many worker
    steps as there are queued jobs empty the queue, and every file then
    holds what it held before followed by the texts queued for it, in the
    order they were enqueued; a file with no job is not touched. *)
Theorem worker_drains_in_order :
  forall (oks : list (bool * bool)) (w : AsyncFileWriter) (d : Disk),
    _dropped w = 0 ->
    Forall (fun ok => ok.1 = true) oks ->
    length oks = length (_q w) ->
    let r := worker_steps oks w d in
    _q r.1 = [] ∧ _dropped r.1 = 0 ∧
    forall p : path,
      r.2 !! p = match texts_for p (_q w) with
                 | [] => d !! p
                 | ts => Some (default [] (d !! p) ++ concat ts)
                 end.
Proof.
  intros oks w d Hn Hok Hlen r. subst r.
  rewrite (worker_steps_drain oks w d Hn Hok Hlen). simpl.
  repeat split. intros p. apply written_lookup.
Qed.

Lemma writes_bounded jobs : forall w : AsyncFileWriter,
  Forall (fun j => j.2 ≠ []) jobs ->
  (0 < _q_maxsize w)%Z ->
  (Z.of_nat (length (_q w)) <= _q_maxsize w)%Z ->
  _q (writes jobs w) = take (Z.to_nat (_q_maxsize w)) (_q w ++ jobs)
  ∧ _dropped (writes jobs w)
    = _dropped w + N.of_nat (length (_q w) + length jobs - Z.to_nat (_q_maxsize w)).
Proof.
  induction jobs as [|[p t] jobs IH]; intros [q m n] Hj Hm Hq; simpl in *.
  - rewrite app_nil_r, take_ge by lia. split; [reflexivity | lia].
  - inversion Hj as [|? ? Ht Hjobs]; subst. simpl in Ht.
    unfold writes in *. simpl. unfold write at 2 4. simpl.
    destruct t as [|c t]; [congruence|].
    unfold q_full. simpl. destruct (Z.ltb_spec 0 m) as [_|?]; [|lia]. simpl.
    destruct (Z.leb_spec m (Z.of_nat (length q))) as [Hfull|Hroom].
    + destruct (IH {| _q := q; _q_maxsize := m; _dropped := n + 1 |} Hjobs Hm Hq)
        as [E1 E2]. simpl in *. rewrite E1, E2. split.
      * rewrite !take_app_le by lia. reflexivity.
      * lia.
    + destruct (IH {| _q := q ++ [(p, c :: t)]; _q_maxsize := m; _dropped := n |} Hjobs Hm)
        as [E1 E2]; simpl.
      { rewrite length_app. simpl. lia. }
      simpl in *. rewrite E1, E2, <- app_assoc. split; [reflexivity|].
      rewrite length_app. simpl. lia.
Qed.

Lemma writes_unbounded jobs : forall w : AsyncFileWriter,
  Forall (fun j => j.2 ≠ []) jobs ->
  (_q_maxsize w <= 0)%Z ->
  _q (writes jobs w) = _q w ++ jobs ∧ _dropped (writes jobs w) = _dropped w.
Proof.
  induction jobs as [|[p t] jobs IH]; intros [q m n] Hj Hm; simpl in *.
  - rewrite app_nil_r. auto.
  - inversion Hj as [|? ? Ht Hjobs]; subst. simpl in Ht.
    unfold writes in *. simpl. unfold write at 2 4. simpl.
    destruct t as [|c t]; [congruence|].
    unfold q_full. simpl. destruct (Z.ltb_spec 0 m) as [?|_]; [lia|]. simpl.
    destruct (IH {| _q := q ++ [(p, c :: t)]; _q_maxsize := m; _dropped := n |} Hjobs Hm)
      as [E1 E2]. simpl in *. rewrite E1, E2, <- app_assoc. auto.
Qed.

(** X7. A burst of writes of non-empty texts to a fresh writer, with no
    worker step between: with a capacity [m > 0] the queue ends as the first
    [m] jobs, in order, and the counter as the number of the others (the
    newest jobs are the ones dropped); with a capacity of zero or less the
    queue is unbounded, every job is kept and nothing is counted. *)
Theorem burst_keeps_oldest :
  forall (jobs : list (path * str)) (m : Z),
    Forall (fun j => j.2 ≠ []) jobs ->
    let w := writes jobs (AsyncFileWriter_init m) in
    ((0 < m)%Z ->
     _q w = take (Z.to_nat m) jobs ∧
     _dropped w = N.of_nat (length jobs - Z.to_nat m)) ∧
    ((m <= 0)%Z -> _q w = jobs ∧ _dropped w = 0).
Proof.
  intros jobs m Hj w. subst w. split; intros Hm.
  - destruct (writes_bounded jobs (AsyncFileWriter_init m) Hj) as [E1 E2];
      simpl; try lia.
    simpl in *. rewrite E1, E2. split; [reflexivity | lia].
  - apply (writes_unbounded jobs (AsyncFileWriter_init m) Hj). exact Hm.
Qed.

Lemma write_ok p t a :
  writer_ok (Some a) -> writer_ok (Some (write p t a)).
Proof.
  intros [Hm Hq]. unfold write. destruct t as [|c t]; [split; assumption|].
  unfold q_full. rewrite Hm. simpl.
  destruct (Z.leb_spec 10000 (Z.of_nat (length (_q a)))); simpl; split; trivial.
  rewrite length_app. simpl. lia.
Qed.

Lemma run_step_ok a b w d :
  writer_ok (Some w) -> writer_ok (Some (_run_step a b w d).1).
Proof.
  intros [Hm Hq]. unfold _run_step.
  destruct (_q w) as [|[p t] q] eqn:E;
    [simpl; rewrite ?E; split; [exact Hm | simpl in *; lia]|].
  simpl in Hq.
  destruct a; [destruct (0 <? _dropped w)|]; simpl; split; trivial; lia.
Qed.

(** ** Failed writes and the drop note *)



(** X17. Drops are reported once.  When drops are pending and the worker
    then writes every queued job and the note with success, the file of the
    first job holds what it held, the text of that job, the note with the
    count, and then its other texts in order; every other file holds its
    own texts only, and the counter ends at 0. *)
Theorem drop_note_written_once :
  forall (oks : list (bool * bool)) (w : AsyncFileWriter) (d : Disk)
         (p : path) (t : str) (q' : list (path * str)),
    _q w = (p, t) :: q' ->
    0 < _dropped w ->
    Forall (fun ok => ok = (true, true)) oks ->
    length oks = length (_q w) ->
    let r := worker_steps oks w d in
    _q r.1 = [] ∧ _dropped r.1 = 0 ∧
    r.2 !! p = Some (default [] (d !! p) ++ t ++ drop_note (_dropped w)
                     ++ concat (texts_for p q')) ∧
    forall p' : path,
      p' ≠ p ->
      r.2 !! p' = match texts_for p' q' with
                  | [] => d !! p'
                  | ts => Some (default [] (d !! p') ++ concat ts)
                  end.
Proof.
  intros oks [q m n] d p t q' Hq Hn Hok Hlen r. subst r.
  cbn [_q _dropped] in *. subst q.
  destruct oks as [|ok oks]; [discriminate|].
  inversion Hok as [|? ? Hok1 Hoks]; subst. cbn [length] in Hlen.
  cbn [worker_steps]. unfold _run_step. cbn [_q _dropped _q_maxsize].
  apply N.ltb_lt in Hn. rewrite Hn.
  rewrite worker_steps_drain; cbn [_q _dropped _q_maxsize]; try lia; try reflexivity.
  2:{ eapply Forall_impl; [exact Hoks|]. intros ? ->. reflexivity. }
  cbn [fst snd _q _dropped]. split; [reflexivity|]. split; [reflexivity|].
  split.
  - rewrite written_lookup. unfold disk_append.
    rewrite !lookup_insert_eq. unfold default at 1 2. cbn [from_option id].
    destruct (texts_for p q'); rewrite <- ?app_assoc, ?app_nil_r; reflexivity.
  - intros p' Hp. rewrite written_lookup. unfold disk_append.
    rewrite !lookup_insert_ne by congruence. reflexivity.
Qed.

Section Bound.
Variable cfg : Config.
Variable lower : str -> str.

Lemma append_writer_ok ts text b g :
  writer_ok g -> writer_ok (append cfg ts text b g).2.
Proof.
  intros H. unfold append. destruct text as [|c text]; [exact H|].
  destruct (has_newline _); simpl; [|exact H].
  destruct (complete_parts _) as [parts partial'].
  destruct (append_loop _ _ _ _) as [[? ?] ?]. simpl.
  apply write_ok. destruct g as [a|]; [exact H|]. split; simpl; [reflexivity | lia].
Qed.

Lemma exec_writer_ok o w : writer_ok (writer w) -> writer_ok (writer (exec cfg lower o w)).
Proof.
  intros H. destruct o; simpl.
  - pose proof (append_writer_ok ts text (buf w) (writer w) H) as H'.
    destruct (append _ _ _ _ _) as [[? ?] ?]. exact H'.
  - exact H.
  - destruct (line_count _ _ _). exact H.
  - destruct (search _ _ _ _ _). exact H.
  - destruct (load_chunk _ _ _ _ _). exact H.
  - exact H.
  - destruct (writer w) as [a|] eqn:E; [|rewrite E; exact H].
    pose proof (run_step_ok write_ok0 note_ok a (disk w) H) as H'.
    destruct (_run_step _ _ _ _). exact H'.
Qed.

(** X8. Whatever operations ran, the queue of the process-wide writer
    never holds more than its 10000 jobs: the memory the pending writes take
    is bounded however fast lines arrive and however slow the worker is. *)
Theorem writer_queue_bounded :
  forall (ops : list op) (nm : str),
    match writer (run cfg lower ops (World_init cfg nm)) with
    | None => True
    | Some a => _q_maxsize a = 10000%Z ∧ (Z.of_nat (length (_q a)) <= 10000)%Z
    end.
Proof.
  intros ops nm. change (writer_ok (writer (run cfg lower ops (World_init cfg nm)))).
  assert (H : writer_ok (writer (World_init cfg nm))) by exact I.
  revert H. generalize (World_init cfg nm). unfold run.
  induction ops as [|o ops IH]; intros w H; simpl; [exact H|].
  apply IH, exec_writer_ok, H.
Qed.
End Bound.

(** ** Reading the history *)

Lemma slice_app {A} (a b c : Z) (l : list A) :
  (0 <= a <= b)%Z -> (b <= c)%Z -> (b <= Z.of_nat (length l))%Z ->
  slice a b l ++ slice b c l = slice a c l.
Proof.
  intros Hab Hbc Hb. unfold slice.
  replace (Z.to_nat c) with (Z.to_nat b + (Z.to_nat c - Z.to_nat b))%nat by lia.
  rewrite <- (take_take_drop l (Z.to_nat b)).
  rewrite !drop_app, length_take.
  replace (Z.to_nat a - Z.to_nat b `min` length l)%nat with 0%nat by lia.
  replace (Z.to_nat b - Z.to_nat b `min` length l)%nat with 0%nat by lia.
  rewrite !drop_0, (drop_ge (take (Z.to_nat b) l) (Z.to_nat b))
    by (rewrite length_take; lia).
  reflexivity.
Qed.

Lemma render_lines_app l1 l2 : render_lines (l1 ++ l2) = render_lines l1 ++ render_lines l2.
Proof. unfold render_lines, join. rewrite map_app, concat_app. reflexivity. Qed.

Lemma render_lines_nonempty l ls : render_lines (l :: ls) ≠ [].
Proof.
  unfold render_lines, join. simpl. intros H.
  apply app_eq_nil in H as [H _]. apply app_eq_nil in H as [_ H]. discriminate.
Qed.

Section History.
Variable cfg : Config.
Variable lower : str -> str.

Lemma read_file_again fv b :
  _read_file cfg fv (_read_file cfg fv b).2 = _read_file cfg fv b.
Proof.
  revert b. intros [nm ls f c m p]. unfold _read_file. simpl.
  destruct (fv_exists fv); simpl; [|reflexivity].
  destruct (fv_stat fv) as [mt|]; simpl; [|reflexivity].
  destruct c as [[|l0 c]|]; simpl.
  - destruct (fv_read fv) as [t|]; simpl; [|reflexivity].
    destruct (splitlines false (normalize cfg t)); simpl;
      rewrite ?Z.eqb_refl; reflexivity.
  - destruct (Z.eqb_spec mt m); simpl.
    + subst. rewrite Z.eqb_refl. reflexivity.
    + destruct (fv_read fv) as [t|]; simpl.
      * destruct (splitlines false (normalize cfg t)); simpl;
          rewrite ?Z.eqb_refl; reflexivity.
      * destruct (Z.eqb_spec mt m); [contradiction | reflexivity].
  - destruct (fv_read fv) as [t|]; simpl; [|reflexivity].
    destruct (splitlines false (normalize cfg t)); simpl;
      rewrite ?Z.eqb_refl; reflexivity.
Qed.

(** X9. Reading the history twice from the same file state gives the
    same lines and the same buffer as reading it once: the second read
    changes nothing, whether it serves the cache, reads the file again or
    falls back to the ring; and so [line_count], [search] and [load_chunk]
    repeated on the same file state return what they returned. *)
Theorem read_file_twice :
  forall (fv : FileView) (b : LogBuffer) (pattern : str) (end_ size : Z),
    _read_file cfg fv (_read_file cfg fv b).2 = _read_file cfg fv b ∧
    line_count cfg fv (line_count cfg fv b).2 = line_count cfg fv b ∧
    search cfg lower pattern fv (search cfg lower pattern fv b).2
    = search cfg lower pattern fv b ∧
    load_chunk cfg end_ size fv (load_chunk cfg end_ size fv b).2
    = load_chunk cfg end_ size fv b.
Proof.
  intros fv b pattern end_ size. split; [apply read_file_again|].
  rewrite line_count_buffer, (search_buffer cfg lower), load_chunk_buffer.
  unfold line_count, search, load_chunk. rewrite read_file_again. auto.
Qed.

Lemma read_file_frame fv b :
  let b' := (_read_file cfg fv b).2 in
  name b' = name b ∧ lines b' = lines b ∧ file b' = file b ∧ _partial b' = _partial b.
Proof.
  unfold _read_file. destruct (fv_exists fv); simpl; [|auto].
  destruct (fv_stat fv) as [m|]; [|auto].
  destruct (_cache b) as [[|l ls]|]; try destruct (m =? _mtime b)%Z;
    destruct (fv_read fv); simpl; auto.
Qed.

(** X10. The history readers only ever touch the cache: after
    [line_count], [search] or [load_chunk] the buffer has the ring, the
    partial fragment, the name and the file it had, so [get_recent] returns
    what it returned before. *)
Theorem readers_keep_ring :
  forall (fv : FileView) (b : LogBuffer) (pattern : str) (end_ size : Z),
    let ok b' := name b' = name b ∧ lines b' = lines b ∧ file b' = file b
                 ∧ _partial b' = _partial b ∧ get_recent b' = get_recent b in
    ok (line_count cfg fv b).2 ∧
    ok (search cfg lower pattern fv b).2 ∧
    ok (load_chunk cfg end_ size fv b).2.
Proof.
  intros fv b pattern end_ size ok. subst ok. simpl.
  rewrite line_count_buffer, (search_buffer cfg lower), load_chunk_buffer.
  destruct (read_file_frame fv b) as (H1 & H2 & H3 & H4).
  unfold get_recent. rewrite H1, H2, H3, H4. repeat split.
Qed.

Lemma load_chunk_text end_ size fv b :
  (0 < end_)%Z ->
  (load_chunk cfg end_ size fv b).1
  = match slice (Z.max 0 (end_ - size)) end_ (_read_file cfg fv b).1 with
    | [] => ([], 0%Z)
    | l :: ls => (render_lines (l :: ls), Z.max 0 (end_ - size))
    end.
Proof.
  intros He. unfold load_chunk. destruct (_read_file cfg fv b) as [ls b']. simpl.
  destruct ls as [|l ls].
  - unfold slice. rewrite take_nil, drop_nil. reflexivity.
  - destruct (Z.leb_spec end_ 0); [lia|].
    destruct (slice _ _ _); reflexivity.
Qed.

Lemma load_chunk_stop end_ size fv b :
  (end_ <= 0)%Z -> (load_chunk cfg end_ size fv b).1 = ([], 0%Z).
Proof.
  intros He. unfold load_chunk. destruct (_read_file cfg fv b) as [ls b']. simpl.
  destruct ls; [reflexivity|]. destruct (Z.leb_spec end_ 0); [reflexivity | lia].
Qed.

(** X11. Paging backwards joins up: within the history, the page that
    ends where a page starts, put in front of that page, is the page of
    twice the size, and its start is the start of that double page.  When
    the first page already starts at 0, the next request returns the empty
    text and 0: paging stops. *)
Theorem load_chunk_pages_join :
  forall (end_ size : Z) (fv : FileView) (b : LogBuffer),
    (0 < size)%Z -> (0 < end_)%Z ->
    (end_ <= Z.of_nat (length (_read_file cfg fv b).1))%Z ->
    let r1 := load_chunk cfg end_ size fv b in
    let r2 := load_chunk cfg r1.1.2 size fv r1.2 in
    let r := load_chunk cfg end_ (2 * size) fv b in
    r2.1.1 ++ r1.1.1 = r.1.1 ∧ r2.1.2 = r.1.2 ∧
    (r1.1.2 = 0%Z -> r2.1 = ([], 0%Z)).
Proof.
  intros end_ size fv b Hs He Hn r1 r2 r. subst r1 r2 r.
  rewrite load_chunk_buffer.
  set (b1 := (_read_file cfg fv b).2).
  assert (Hr : (_read_file cfg fv b1).1 = (_read_file cfg fv b).1).
  { subst b1. rewrite read_file_again. reflexivity. }
  set (ls := (_read_file cfg fv b).1) in *.
  rewrite (load_chunk_text end_ size fv b He).
  rewrite (load_chunk_text end_ (2 * size) fv b He). fold ls.
  pose proof (slice_length (Z.max 0 (end_ - size)) end_ ls ltac:(lia) ltac:(lia)) as L1.
  pose proof (slice_length (Z.max 0 (end_ - 2 * size)) end_ ls ltac:(lia) ltac:(lia)) as L.
  destruct (slice (Z.max 0 (end_ - size)) end_ ls) as [|x1 c1] eqn:E1;
    [simpl in L1; lia|].
  destruct (slice (Z.max 0 (end_ - 2 * size)) end_ ls) as [|x c] eqn:E;
    [simpl in L; lia|].
  simpl fst. simpl snd.
  destruct (Z.le_gt_cases end_ size) as [Hle|Hgt].
  - replace (Z.max 0 (end_ - size)) with 0%Z in * by lia.
    replace (Z.max 0 (end_ - 2 * size)) with 0%Z in * by lia.
    rewrite load_chunk_stop by lia. simpl. rewrite <- E1, <- E. auto.
  - rewrite (load_chunk_text (Z.max 0 (end_ - size)) size fv b1) by lia.
    rewrite Hr.
    replace (Z.max 0 (Z.max 0 (end_ - size) - size)) with (Z.max 0 (end_ - 2 * size)) by lia.
    pose proof (slice_length (Z.max 0 (end_ - 2 * size)) (Z.max 0 (end_ - size)) ls
                  ltac:(lia) ltac:(lia)) as L2.
    pose proof (slice_app (Z.max 0 (end_ - 2 * size)) (Z.max 0 (end_ - size)) end_ ls
                  ltac:(lia) ltac:(lia) ltac:(lia)) as Happ.
    destruct (slice (Z.max 0 (end_ - 2 * size)) (Z.max 0 (end_ - size)) ls)
      as [|x2 c2] eqn:E2; [simpl in L2; lia|].
    simpl fst. simpl snd. rewrite <- render_lines_app, <- E1, Happ, E.
    repeat split. intros H0. lia.
Qed.

(** X12. [search] never reports more matches than [line_count] counts
    lines for the same file state, and its text is empty exactly when it
    reports no match. *)
Theorem search_within_history :
  forall (pattern : str) (fv : FileView) (b : LogBuffer),
    ((search cfg lower pattern fv b).1.2 <= (line_count cfg fv b).1)%nat ∧
    ((search cfg lower pattern fv b).1.1 = [] ↔ (search cfg lower pattern fv b).1.2 = 0%nat).
Proof.
  intros pattern fv b. unfold search, line_count.
  destruct (_read_file cfg fv b) as [ls b']. simpl.
  pose proof (List.filter_length_le (fun l => contains (lower pattern) (lower l)) ls) as Hle.
  destruct (List.filter _ ls) as [|l ms]; simpl in *.
  - split; [lia | tauto].
  - split; [lia|]. split; [|discriminate].
    intros H. exfalso. exact (render_lines_nonempty l ms H).
Qed.



(** X14. A call of [append] that completes a line drops the cache, so
    the next read of an existing, readable file parses the text the file
    has then, even when its modification time is the one the buffer
    remembers. *)
Theorem append_forces_reread :
  forall (ts text : str) (b : LogBuffer) (g : option AsyncFileWriter) (m : Z) (t : str),
    text ≠ [] ->
    LF ∈ _partial b ++ normalize cfg text ->
    (_read_file cfg (file_with m t) (append cfg ts text b g).1.2).1
    = splitlines false (normalize cfg t).
Proof.
  intros ts text b g m t Ht Hin. apply has_newline_true in Hin.
  rewrite (append_complete cfg ts text b g Ht Hin). reflexivity.
Qed.
End History.

(** ** From [append] to the file and back *)
Section Roundtrip.
Variable cfg : Config.
Variable lower : str -> str.
Hypothesis normalize_plain : forall s, CR ∉ s -> normalize cfg s = s.

Lemma exec_append ts text w :
  exec cfg lower (OpAppend ts text) w
  = {| buf := (append cfg ts text (buf w) (writer w)).1.2;
       writer := (append cfg ts text (buf w) (writer w)).2;
       disk := disk w |}.
Proof. simpl. destruct (append _ _ _ _ _) as [[? ?] ?]. reflexivity. Qed.

Lemma exec_worker a b w q :
  writer w = Some q ->
  exec cfg lower (OpWorker a b) w
  = {| buf := buf w;
       writer := Some (_run_step a b q (disk w)).1;
       disk := (_run_step a b q (disk w)).2 |}.
Proof. intros E. simpl. rewrite E. destruct (_run_step _ _ _ _). reflexivity. Qed.

Lemma join_nl_newline l ls : LF ∈ join_nl (l :: ls).
Proof.
  unfold join_nl. simpl. rewrite <- app_assoc, !elem_of_app, elem_of_cons. auto.
Qed.

Lemma no_linebreak_app s t : no_linebreak (s ++ t) ↔ no_linebreak s ∧ no_linebreak t.
Proof. apply Forall_app. Qed.

Lemma plain_line_no_linebreak ts c :
  no_linebreak ts -> no_linebreak c -> no_linebreak (plain_line ts c).
Proof.
  intros Hts Hc. unfold plain_line.
  repeat (apply no_linebreak_app; split); trivial; repeat constructor.
Qed.

Lemma file_text_lines ts cs :
  Forall (fun c => strip_ansi cfg c = c) cs ->
  join (map (file_line cfg ts) cs) = join_nl (map (plain_line ts) cs).
Proof.
  induction 1 as [|c cs Hc _ IH]; [reflexivity|].
  unfold join, join_nl in *. rewrite !map_cons, !concat_cons, IH.
  unfold file_line, plain_line. rewrite Hc, <- !app_assoc. reflexivity.
Qed.

Lemma render_plain_lines ts cs :
  93 ∉ ts -> render_lines (map (plain_line ts) cs) = join (map (disp_line ts) cs).
Proof.
  intros H. induction cs as [|c cs IH]; [reflexivity|].
  unfold render_lines, join in *. rewrite !map_cons, !concat_cons, IH.
  rewrite colorize_plain_line by exact H. reflexivity.
Qed.

Lemma contents_of_lines cs b :
  _partial b = [] ->
  Forall no_linebreak cs ->
  complete_parts (_partial b ++ normalize cfg (join_nl cs))
  = (map (fun l => l ++ [LF]) cs, []).
Proof.
  intros Hp Hcs. rewrite Hp. simpl.
  pose proof (clean_join_nl cs Hcs) as Hc.
  rewrite (normalize_plain _ (clean_no_CR _ Hc)).
  destruct (complete_parts_clean (join_nl cs) Hc) as (ls & r & E & Hd & Hls & Hr).
  assert (Hcs' : Forall (fun l => LF ∉ l) cs).
  { eapply Forall_impl; [exact Hcs | apply no_linebreak_no_LF]. }
  destruct (join_nl_unique cs ls [] r Hcs' Hls (not_elem_of_nil _) Hr) as [-> <-].
  { rewrite app_nil_r. exact Hd. }
  exact E.
Qed.

(** X15. Lines written by [append] come back from the file as they were
    displayed.  On a fresh buffer and an empty disk, with lines free of line
    boundaries and of escape sequences and a timestamp without closing
    bracket: after [append] and one successful step of the worker the file
    holds exactly the file text [append] returned, [line_count] counts the
    lines appended, and [load_chunk] over all of them returns the display
    text [append] returned, with start 0. *)
Theorem persisted_lines_come_back :
  forall (nm ts : str) (cs : list str) (note_ok : bool) (m : Z),
    cs ≠ [] ->
    Forall no_linebreak cs ->
    no_linebreak ts ->
    93 ∉ ts ->
    Forall (fun c => strip_ansi cfg c = c) cs ->
    let w0 := World_init cfg nm in
    let out := (append cfg ts (join_nl cs) (buf w0) (writer w0)).1.1 in
    let w := run cfg lower [OpAppend ts (join_nl cs); OpWorker true note_ok] w0 in
    let fv := view_of (disk w) (file (buf w)) (Some m) true in
    let n := Z.of_nat (length cs) in
    disk w !! file (buf w) = Some out.2 ∧
    (line_count cfg fv (buf w)).1 = length cs ∧
    (load_chunk cfg n n fv (buf w)).1 = (out.1, 0%Z).
Proof.
  intros nm ts cs note_ok m Hne Hcs Hts Hbr Hstrip w0 out w fv n.
  assert (Htext : join_nl cs ≠ []).
  { destruct cs as [|c cs]; [congruence|]. intros E.
    pose proof (join_nl_newline c cs) as Hin. rewrite E in Hin.
    apply elem_of_nil in Hin. exact Hin. }
  assert (Hparts := contents_of_lines cs (buf w0) eq_refl Hcs).
  assert (Hnl : has_newline (_partial (buf w0) ++ normalize cfg (join_nl cs)) = true).
  { apply has_newline_true. pose proof (complete_parts_join
      (_partial (buf w0) ++ normalize cfg (join_nl cs))) as E.
    rewrite Hparts in E. simpl in E. rewrite app_nil_r in E. rewrite <- E.
    destruct cs as [|c cs]; [congruence|]. apply (join_nl_newline c cs). }
  pose proof (append_complete cfg ts (join_nl cs) (buf w0) (writer w0) Htext Hnl) as Ha.
  rewrite Hparts in Ha. simpl fst in Ha. simpl snd in Ha.
  assert (Hcs' : Forall (fun l => LF ∉ l) cs).
  { eapply Forall_impl; [exact Hcs | apply no_linebreak_no_LF]. }
  rewrite (map_rstrip_lines cs Hcs') in Ha.
  assert (Hout : out = rendering cfg ts cs) by (subst out; rewrite Ha; reflexivity).
  assert (Hft : (rendering cfg ts cs).2 ≠ []).
  { apply rendering_nonempty, Hne. }
  assert (Hw : w = {| buf := (append cfg ts (join_nl cs) (buf w0) (writer w0)).1.2;
                      writer := Some {| _q := []; _q_maxsize := 10000; _dropped := 0 |};
                      disk := <[file (buf w0) := (rendering cfg ts cs).2]> ∅ |}).
  { subst w. unfold run. cbn [fold_left]. rewrite exec_append.
    erewrite exec_worker; [|cbn [writer]; rewrite Ha; reflexivity].
    cbn [buf disk]. rewrite Ha. cbn [fst snd].
    change ((rendering cfg ts cs).2) with (join (map (file_line cfg ts) cs)) in *.
    unfold write.
    destruct (join (map (file_line cfg ts) cs)) as [|x ft] eqn:Eft; [congruence|].
    unfold _run_step, disk_append. cbn. reflexivity. }
  assert (Hfile : file (buf w) = file (buf w0)).
  { rewrite Hw. cbn [buf]. rewrite Ha. reflexivity. }
  assert (Hdisk : disk w !! file (buf w) = Some (rendering cfg ts cs).2).
  { rewrite Hfile. rewrite Hw. cbn [disk]. apply lookup_insert_eq. }
  assert (Hread : (_read_file cfg fv (buf w)).1 = map (plain_line ts) cs).
  { subst fv. unfold _read_file, view_of. cbn [fv_exists fv_stat fv_read].
    rewrite Hdisk. rewrite bool_decide_eq_true_2 by eauto. cbn [negb].
    rewrite Hw at 1. cbn [buf]. rewrite Ha. cbn [fst snd _cache].
    unfold rendering. cbn [snd]. rewrite (file_text_lines ts cs Hstrip).
    assert (Hpl : Forall no_linebreak (map (plain_line ts) cs)).
    { apply Forall_map. eapply Forall_impl; [exact Hcs|].
      intros c Hc. apply plain_line_no_linebreak; assumption. }
    rewrite (normalize_plain _ (clean_no_CR _ (clean_join_nl _ Hpl))).
    rewrite (splitlines_join_nl _ Hpl). reflexivity. }
  split; [rewrite Hdisk, Hout; reflexivity|]. split.
  - unfold line_count. destruct (_read_file cfg fv (buf w)) as [ls b'].
    simpl in *. subst ls. apply length_map.
  - assert (Hn : (0 < n)%Z) by (subst n; destruct cs; [congruence | simpl; lia]).
    rewrite (load_chunk_text cfg n n fv (buf w) Hn), Hread.
    replace (Z.max 0 (n - n)) with 0%Z by lia.
    unfold slice. rewrite drop_0. subst n. rewrite Nat2Z.id.
    rewrite take_ge by (rewrite length_map; lia).
    destruct cs as [|c cs]; [congruence|]. cbn [map].
    change (plain_line ts c :: map (plain_line ts) cs) with (map (plain_line ts) (c :: cs)).
    rewrite (render_plain_lines ts (c :: cs) Hbr), Hout. reflexivity.
Qed.
End Roundtrip.

(** * Instances *)

Lemma chunk_boundary_invariance_witness :
  let cfg := demo_config 100 in
  let b := LogBuffer_init cfg (py "bot") in
  let calls := [(py "10:00:00", py "ab");
                (py "10:00:01", py "c" ++ [LF] ++ py "d");
                (py "10:00:02", [LF])] in
  concat (feed_contents cfg calls b) = [py "abc"; py "d"]
  ∧ _partial (feed cfg calls b None).1.2 = []
  ∧ (feed cfg calls b None).1.1
    = zip_with (fun call cs => rendering cfg call.1 cs) calls (feed_contents cfg calls b).
Proof.
  intros cfg b calls.
  apply (chunk_boundary_invariance cfg normalize_crlf_id calls [py "abc"; py "d"] b None).
  - reflexivity.
  - repeat constructor.
  - reflexivity.
Defined.

(** The claim of C1 fails once a chunk ends between CR and LF: the two
    chunks below are the text of the single chunk, two lines ending in LF,
    and complete three lines where the single chunk completes two. *)
Lemma chunk_boundary_counterexample :
  let cfg := demo_config 100 in
  let b := LogBuffer_init cfg (py "bot") in
  let ts := py "10:00:00" in
  let chunked := [(ts, py "a" ++ [CR]); (ts, [LF] ++ py "b" ++ [LF])] in
  let whole := [(ts, py "a" ++ [CR; LF] ++ py "b" ++ [LF])] in
  let ls := [py "a" ++ [CR]; py "b"] in
  _partial b = []
  ∧ Forall (fun l => LF ∉ l) ls
  ∧ concat (map snd chunked) = join_nl ls
  ∧ concat (map snd whole) = join_nl ls
  ∧ concat (feed_contents cfg chunked b) = [py "a"; []; py "b"]
  ∧ concat (feed_contents cfg whole b) = [py "a"; py "b"]
  ∧ concat (feed_contents cfg chunked b) ≠ ls.
Proof.
  simpl. repeat split; try reflexivity; try discriminate.
  repeat constructor; intros H; repeat (apply elem_of_cons in H as [H|H]; [discriminate|]);
    apply elem_of_nil in H; exact H.
Qed.

(** A form feed inside a line ends a piece of [splitlines]: one line in,
    two lines out, the first still carrying the form feed. *)
Example form_feed_splits_line :
  let cfg := demo_config 100 in
  let b := LogBuffer_init cfg (py "bot") in
  concat (feed_contents cfg [(py "10:00:00", py "a" ++ [12] ++ py "b" ++ [LF])] b)
  = [py "a" ++ [12]; py "b"].
Proof. reflexivity. Qed.

Lemma ring_bound_fifo_witness :
  let cfg := demo_config 2 in
  let w := run cfg ascii_lower [] (World_init cfg (py "bot")) in
  let calls := [(py "10:00:00", py "a" ++ [LF] ++ py "b" ++ [LF]);
                (py "10:00:01", py "c" ++ [LF])] in
  length (feed_display cfg calls (buf w)) = (2 + 1)%nat
  ∧ lines (feed cfg calls (buf w) (writer w)).1.2
    = [disp_line (py "10:00:00") (py "b"); disp_line (py "10:00:01") (py "c")].
Proof.
  intros cfg w calls. split; [reflexivity|].
  apply (proj1 (proj2 (ring_bound_fifo cfg ascii_lower) [] (py "bot") calls 1%nat eq_refl)).
Defined.

Lemma partial_no_newline_witness :
  let cfg := demo_config 100 in
  let b := (append cfg (py "10:00:00") (py "ab") (LogBuffer_init cfg (py "bot")) None).1.2 in
  (append cfg (py "10:00:01") (py "cd") b None).1.1 = ([], [])
  ∧ _partial (append cfg (py "10:00:01") (py "cd") b None).1.2 = py "abcd".
Proof.
  intros cfg b.
  apply (proj1 (proj2 (partial_no_newline cfg ascii_lower)) (py "10:00:01") (py "cd") b None).
  - discriminate.
  - apply has_newline_false. reflexivity.
Defined.

Lemma write_enqueue_or_drop_witness :
  let w := AsyncFileWriter_init 1 in
  let w1 := write (py "logs/a.log") (py "x") w in
  (_q w1 = [(py "logs/a.log", py "x")] ∧ _dropped w1 = 0)
  ∧ (_q (write (py "logs/a.log") (py "y") w1) = _q w1
     ∧ _dropped (write (py "logs/a.log") (py "y") w1) = 1).
Proof.
  intros w w1. split.
  - apply (proj1 (proj2 (proj2 (write_enqueue_or_drop (py "logs/a.log") (py "x") w))));
      [discriminate | reflexivity].
  - apply (proj1 (proj2 (write_enqueue_or_drop (py "logs/a.log") (py "y") w1)));
      [discriminate | reflexivity].
Defined.

(** The claim of C4 fails on the empty text: with room in the queue nothing
    is enqueued, and at capacity nothing is counted. *)
Lemma write_empty_text_counterexample :
  let w := AsyncFileWriter_init 1 in
  let w1 := write (py "logs/a.log") (py "x") w in
  (q_full w = false ∧ _q (write (py "logs/a.log") [] w) = _q w)
  ∧ (q_full w1 = true ∧ _dropped (write (py "logs/a.log") [] w1) = _dropped w1).
Proof. repeat split. Qed.

Lemma drop_note_on_next_write_witness :
  let a := py "logs/a.log" in
  let w := write a (py "three") (write a (py "two") (write a (py "one")
             (AsyncFileWriter_init 1))) in
  let r := _run_step true true w ∅ in
  _q r.1 = [] ∧ _dropped r.1 = 0 ∧
  r.2 !! a = Some (default [] ((∅ : Disk) !! a) ++ py "one" ++ drop_note 2) ∧
  (forall p', p' ≠ a -> r.2 !! p' = (∅ : Disk) !! p').
Proof.
  intros a w.
  apply (proj1 (drop_note_on_next_write w ∅ a (py "one") [] true eq_refl eq_refl)).
Defined.

(** The claim of C2 fails with two destinations: the job dropped was for
    a.log, the count is written into b.log, which lost nothing, and the next
    successful write to a.log carries no note. *)
Lemma drop_note_other_file_counterexample :
  let a := py "logs/a.log" in
  let b := py "logs/b.log" in
  let w1 := write b (py "b1" ++ [LF]) (AsyncFileWriter_init 1) in
  let w2 := write a (py "a1" ++ [LF]) w1 in
  let r3 := _run_step true true w2 ∅ in
  let w4 := write a (py "a2" ++ [LF]) r3.1 in
  let r5 := _run_step true true w4 r3.2 in
  _q w2 = [(b, py "b1" ++ [LF])] ∧ _dropped w2 = 1
  ∧ _dropped r3.1 = 0
  ∧ r5.2 !! b = Some (py "b1" ++ [LF] ++ drop_note 1)
  ∧ r5.2 !! a = Some (py "a2" ++ [LF])
  ∧ _dropped r5.1 = 0.
Proof. vm_compute. repeat split. Qed.


Lemma load_chunk_pagination_witness :
  let cfg := demo_config 100 in
  let b := LogBuffer_init cfg (py "bot") in
  (load_chunk cfg 10 5 (file_with 7 ten_lines) b).1
  = (render_lines [py "l5"; py "l6"; py "l7"; py "l8"; py "l9"], 5%Z)
  ∧ ∃ chunk, (load_chunk cfg 4 3 (file_with 7 ten_lines) b).1 = (render_lines chunk, 1%Z)
             ∧ Z.of_nat (length chunk) = 3%Z
             ∧ forall i, (i < length chunk)%nat ->
                         chunk !! i = (_read_file cfg (file_with 7 ten_lines) b).1 !! (1 + i)%nat.
Proof.
  intros cfg b. split.
  - apply (proj2 (load_chunk_pagination cfg) (file_with 7 ten_lines) b eq_refl).
  - apply (proj1 (proj1 (load_chunk_pagination cfg) 4%Z 3%Z (file_with 7 ten_lines) b));
      reflexivity.
Defined.

(** The claim of C5 fails for a request past the end of the history: on
    three lines [load_chunk 10 5] has positive [end] and [size], and returns
    the empty text with [new_start] 0, not [max 0 (10 - 5)]. *)
Lemma load_chunk_counterexample :
  let cfg := demo_config 100 in
  let b := LogBuffer_init cfg (py "bot") in
  let fv := file_with 7 (join_nl [py "l0"; py "l1"; py "l2"]) in
  length (_read_file cfg fv b).1 = 3%nat
  ∧ (load_chunk cfg 10 5 fv b).1 = ([], 0%Z)
  ∧ (load_chunk cfg 10 5 fv b).1.2 ≠ Z.max 0 (10 - 5).
Proof. repeat split. discriminate. Qed.

Lemma load_chunk_beyond_history_witness :
  let cfg := demo_config 100 in
  let b := LogBuffer_init cfg (py "bot") in
  (load_chunk cfg 10 5 (file_with 7 (join_nl [py "l0"; py "l1"; py "l2"])) b).1 = ([], 0%Z).
Proof.
  intros cfg b.
  apply (load_chunk_beyond_history cfg 10 5 (file_with 7 (join_nl [py "l0"; py "l1"; py "l2"])) b).
  vm_compute. discriminate.
Defined.

Lemma search_case_insensitive_witness :
  let cfg := demo_config 100 in
  let b := LogBuffer_init cfg (py "bot") in
  let fv := file_with 7 (join_nl [py "INFO start"; py "ERROR boom"; py "info ok"]) in
  (search cfg ascii_lower (py "error") fv b).1 = (py "ERROR boom" ++ [LF], 1%nat)
  ∧ (search cfg ascii_lower (py "Info") fv b).1
    = (render_lines (filter (occurs_ignoring_case (py "Info")) (_read_file cfg fv b).1),
       length (filter (occurs_ignoring_case (py "Info")) (_read_file cfg fv b).1)).
Proof.
  intros cfg b fv. split.
  - apply (proj1 (proj2 (proj2 (proj2
             (search_case_insensitive cfg ascii_lower (fun s _ => eq_refl))))) fv b).
    reflexivity.
  - apply (proj1 (proj2 (search_case_insensitive cfg ascii_lower (fun s _ => eq_refl)))
             (py "Info") fv b).
    + repeat constructor.
    + vm_compute. repeat constructor.
Defined.

(** The claim of C6 fails on Greek text: the line holds the pattern, a
    capital sigma, letter for letter; lower-casing turns the sigma at the
    end of the word into the final form and the pattern into the other one,
    and [search] finds nothing. *)
Lemma search_final_sigma_counterexample :
  let cfg := demo_config 100 in
  let b := LogBuffer_init cfg (py "bot") in
  let line := [927; 916; 927; 931] in
  let pattern := [931] in
  let fv := file_with 7 (join_nl [line]) in
  (forall s, is_ascii s -> greek_lower s = ascii_lower s)
  ∧ (_read_file cfg fv b).1 = [line]
  ∧ line = [927; 916; 927] ++ pattern ++ []
  ∧ occurs_ignoring_case pattern line
  ∧ greek_lower line = [959; 948; 959; 962]
  ∧ greek_lower pattern = [963]
  ∧ (search cfg greek_lower pattern fv b).1 = ([], 0%nat).
Proof.
  split; [exact greek_lower_ascii|].
  split; [reflexivity|]. split; [reflexivity|]. split.
  - exists [927; 916; 927], [931], []. split; [reflexivity|].
    constructor; [left; reflexivity | constructor].
  - repeat split.
Qed.

Lemma line_count_source_witness :
  let cfg := demo_config 100 in
  let b := LogBuffer_init cfg (py "bot") in
  fst <$> line_count_call cfg (Probed (file_with 7 (join_nl [py "l0"; py "l1"]))) b
  = Some 2%nat
  ∧ fst <$> line_count_call cfg
              (Probed {| fv_exists := false; fv_stat := None; fv_read := None |}) b
    = Some 0%nat.
Proof.
  intros cfg b. split.
  - destruct (line_count_source cfg (file_with 7 (join_nl [py "l0"; py "l1"])) b)
      as (n & b' & E & H).
    cbv zeta in H. destruct H as (_ & _ & _ & H & _).
    rewrite E. cbn [fmap option_fmap option_map fst]. f_equal.
    apply (H 7%Z (join_nl [py "l0"; py "l1"]) eq_refl eq_refl).
    + intros (c & Hc & _). discriminate.
    + reflexivity.
  - destruct (line_count_source cfg
                {| fv_exists := false; fv_stat := None; fv_read := None |} b)
      as (n & b' & E & H).
    cbv zeta in H. destruct H as (H & _).
    rewrite E. cbn [fmap option_fmap option_map fst]. f_equal.
    apply (H eq_refl).
Defined.

(** The claim of C7 fails once the buffer holds a cache taken at the
    modification time of the file: the file has three lines and can be
    read, and the count is that of the two cached lines; the file can no
    longer be read and the ring is empty, and the count is still two. *)
Lemma line_count_cache_counterexample :
  let cfg := demo_config 100 in
  let b0 := LogBuffer_init cfg (py "bot") in
  let b1 := (line_count cfg (file_with 7 (join_nl [py "l0"; py "l1"])) b0).2 in
  let grown := file_with 7 (join_nl [py "l0"; py "l1"; py "l2"]) in
  let locked := {| fv_exists := true; fv_stat := Some 7%Z; fv_read := None |} in
  length (splitlines false (normalize cfg (join_nl [py "l0"; py "l1"; py "l2"]))) = 3%nat
  ∧ fst <$> line_count_call cfg (Probed grown) b1 = Some 2%nat
  ∧ length (lines b1) = 0%nat
  ∧ fst <$> line_count_call cfg (Probed locked) b1 = Some 2%nat.
Proof. repeat split. Qed.

Lemma clear_then_append_witness :
  let cfg := demo_config 100 in
  let b0 := LogBuffer_init cfg (py "bot") in
  let b1 := (append cfg (py "10:00:00") (py "old" ++ [LF]) b0 None).1.2 in
  let b2 := (clear false b1 ∅).1 in
  get_recent (append cfg (py "10:00:01") (py "x" ++ [LF]) b2 None).1.2
  = disp_line (py "10:00:01") (py "x").
Proof.
  intros cfg b0 b1 b2.
  apply (proj2 (proj2 (proj2 (clear_then_append cfg false b1 ∅)))
           (py "10:00:01") None eq_refl).
  - simpl. lia.
  - reflexivity.
Defined.

(** The claim of C9 fails when a partial fragment is pending: [clear] keeps
    it, and the next line is rendered with the fragment in front. *)
Lemma clear_partial_counterexample :
  let cfg := demo_config 100 in
  let b0 := LogBuffer_init cfg (py "bot") in
  let b1 := (append cfg (py "10:00:00") (py "foo") b0 None).1.2 in
  let b2 := (clear true b1 ∅).1 in
  let b3 := (append cfg (py "10:00:01") (py "x" ++ [LF]) b2 None).1.2 in
  get_recent b2 = []
  ∧ get_recent b3 = disp_line (py "10:00:01") (py "foox")
  ∧ get_recent b3 ≠ disp_line (py "10:00:01") (py "x").
Proof. repeat split. discriminate. Qed.

(** ** Instances of the further properties *)

Lemma absent_by_compute (c : N) (l : str) : bool_decide (c ∈ l) = false -> c ∉ l.
Proof. apply bool_decide_eq_false. Qed.

Lemma colorize_bracket_prefix_witness :
  _colorize (py "[10:00:00] boot ok")
  = py "[" ++ [ESC] ++ py "[94m10:00:00" ++ [ESC] ++ py "[0m] boot ok"
  ∧ _colorize (py "[unclosed") = py "[unclosed"
  ∧ _colorize (py "plain") = py "plain".
Proof.
  split; [|split].
  - apply (proj2 (proj2 colorize_bracket_prefix) (py "10:00:00") (py " boot ok")).
    apply absent_by_compute. reflexivity.
  - apply (proj1 (proj2 colorize_bracket_prefix) (py "unclosed")).
    apply absent_by_compute. reflexivity.
  - apply (proj1 colorize_bracket_prefix (py "plain")). reflexivity.
Defined.


Lemma append_keeps_all_text_witness :
  let cfg := demo_config 100 in
  let b := LogBuffer_init cfg (py "bot") in
  let text := py "a" ++ [LF] ++ py "b" ++ [12] ++ py "c" in
  ∃ parts,
    join parts ++ _partial (append cfg (py "10:00:00") text b None).1.2
    = _partial b ++ normalize cfg text
    ∧ call_contents cfg text b = map rstrip_nl parts
    ∧ (append cfg (py "10:00:00") text b None).1.1
      = rendering cfg (py "10:00:00") (map rstrip_nl parts).
Proof.
  intros cfg b text.
  apply (append_keeps_all_text cfg (py "10:00:00") text b None). discriminate.
Defined.

Lemma display_text_one_line_each_witness :
  let cfg := demo_config 100 in
  let b := LogBuffer_init cfg (py "bot") in
  let ts := py "10:00:00" in
  let text := py "a" ++ [12] ++ py "b" ++ [LF] ++ py "c" ++ [LF] ++ py "d" in
  (append cfg ts text b None).1.1.1
  = join_nl [disp_prefix ts ++ py "a" ++ [12];
             disp_prefix ts ++ py "b";
             disp_prefix ts ++ py "c"].
Proof.
  intros cfg b ts text.
  apply (proj1 (display_text_one_line_each cfg ts text b None
                  ltac:(apply has_newline_false; reflexivity))).
Defined.

Lemma get_recent_accumulates_witness :
  let cfg := demo_config 3 in
  let b := LogBuffer_init cfg (py "bot") in
  let calls := [(py "10:00:00", py "a" ++ [LF] ++ py "b");
                (py "10:00:01", py "c" ++ [LF])] in
  get_recent (feed cfg calls b None).1.2 = join (map fst (feed cfg calls b None).1.1).
Proof.
  intros cfg b calls.
  apply (get_recent_accumulates cfg calls b None); [reflexivity|].
  vm_compute. lia.
Defined.

Lemma worker_drains_in_order_witness :
  let a := py "logs/a.log" in
  let b := py "logs/b.log" in
  let w := writes [(a, py "1"); (b, py "2"); (a, py "3")] (AsyncFileWriter_init 5) in
  let r := worker_steps [(true, false); (true, true); (true, false)] w ∅ in
  _q r.1 = [] ∧ _dropped r.1 = 0 ∧
  forall p : path,
    r.2 !! p = match texts_for p (_q w) with
               | [] => (∅ : Disk) !! p
               | ts => Some (default [] ((∅ : Disk) !! p) ++ concat ts)
               end.
Proof.
  intros a b w.
  apply (worker_drains_in_order [(true, false); (true, true); (true, false)] w ∅).
  - reflexivity.
  - repeat constructor.
  - reflexivity.
Defined.

Lemma burst_keeps_oldest_witness :
  let a := py "logs/a.log" in
  let jobs := [(a, py "1"); (a, py "2"); (a, py "3")] in
  _q (writes jobs (AsyncFileWriter_init 2)) = take 2 jobs
  ∧ _dropped (writes jobs (AsyncFileWriter_init 2)) = 1.
Proof.
  intros a jobs.
  apply (proj1 (burst_keeps_oldest jobs 2 ltac:(repeat constructor; discriminate))).
  reflexivity.
Defined.


Lemma drop_note_written_once_witness :
  let a := py "logs/a.log" in
  let w := writes [(a, py "1"); (a, py "2"); (a, py "3"); (a, py "4")]
             (AsyncFileWriter_init 2) in
  let r := worker_steps [(true, true); (true, true)] w ∅ in
  _q r.1 = [] ∧ _dropped r.1 = 0 ∧
  r.2 !! a = Some (py "1" ++ drop_note 2 ++ py "2").
Proof.
  intros a w.
  destruct (drop_note_written_once [(true, true); (true, true)] w ∅ a (py "1")
              [(a, py "2")] eq_refl eq_refl ltac:(repeat constructor) eq_refl)
    as (H1 & H2 & H3 & _).
  split; [exact H1|]. split; [exact H2|]. rewrite H3. reflexivity.
Defined.

Lemma load_chunk_pages_join_witness :
  let cfg := demo_config 100 in
  let b := LogBuffer_init cfg (py "bot") in
  let fv := file_with 7 ten_lines in
  let r1 := load_chunk cfg 10 4 fv b in
  let r2 := load_chunk cfg r1.1.2 4 fv r1.2 in
  let r := load_chunk cfg 10 (2 * 4) fv b in
  r2.1.1 ++ r1.1.1 = r.1.1 ∧ r2.1.2 = r.1.2 ∧ (r1.1.2 = 0%Z -> r2.1 = ([], 0%Z)).
Proof.
  intros cfg b fv.
  apply (load_chunk_pages_join cfg 10 4 fv b); [reflexivity | reflexivity |].
  vm_compute. discriminate.
Defined.

Lemma search_within_history_witness :
  let cfg := demo_config 100 in
  let b := LogBuffer_init cfg (py "bot") in
  ((search cfg ascii_lower (py "L1") (file_with 7 ten_lines) b).1.2
   <= (line_count cfg (file_with 7 ten_lines) b).1)%nat.
Proof.
  intros cfg b.
  apply (proj1 (search_within_history cfg ascii_lower (py "L1") (file_with 7 ten_lines) b)).
Defined.


Lemma append_forces_reread_witness :
  let cfg := demo_config 100 in
  let b0 := LogBuffer_init cfg (py "bot") in
  let b1 := (line_count cfg (file_with 7 (join_nl [py "l0"])) b0).2 in
  _cache b1 = Some [py "l0"] ∧ _mtime b1 = 7%Z ∧
  (_read_file cfg (file_with 7 (join_nl [py "l0"; py "l1"]))
     (append cfg (py "10:00:00") (py "x" ++ [LF]) b1 None).1.2).1
  = [py "l0"; py "l1"].
Proof.
  intros cfg b0 b1. split; [reflexivity|]. split; [reflexivity|].
  apply (append_forces_reread cfg (py "10:00:00") (py "x" ++ [LF]) b1 None 7
           (join_nl [py "l0"; py "l1"])).
  - discriminate.
  - apply has_newline_true. reflexivity.
Defined.

Lemma persisted_lines_come_back_witness :
  let cfg := demo_config 100 in
  let ts := py "2024-05-01 10:00:00" in
  let cs := [py "starting"; py "ready"] in
  let w0 := World_init cfg (py "bot") in
  let out := (append cfg ts (join_nl cs) (buf w0) (writer w0)).1.1 in
  let w := run cfg ascii_lower [OpAppend ts (join_nl cs); OpWorker true true] w0 in
  let fv := view_of (disk w) (file (buf w)) (Some 7%Z) true in
  disk w !! file (buf w) = Some out.2 ∧
  (line_count cfg fv (buf w)).1 = 2%nat ∧
  (load_chunk cfg 2 2 fv (buf w)).1 = (out.1, 0%Z).
Proof.
  intros cfg ts cs.
  apply (persisted_lines_come_back cfg ascii_lower normalize_crlf_id (py "bot") ts cs true 7).
  - discriminate.
  - repeat constructor.
  - repeat constructor.
  - apply absent_by_compute. reflexivity.
  - repeat constructor.
Defined.
